(** * Roll-call report generator: the extraction engine and its aggregation

    A shallow embedding of [通用接龙数据报表生成器.py]: the text helpers of
    [DataProcessor], the manager pipeline of [ReportProcessor] inside
    [generate_report], and the channel pipeline of
    [generate_new_business_report], followed by the properties the
    specification states about them.

    Python strings are sequences of Unicode code points, so a string is a
    [list Z] here; literals are written as UTF-8 text and decoded by [utf8]. *)

From Stdlib Require Import String Ascii.
From Stdlib Require Import List ZArith Lia Bool QArith.
From Stdlib Require Import Permutation Sorted.
Import ListNotations.
Open Scope Z_scope.

(** ** Python strings *)

Module PyStr.

Definition char := Z.
Definition str := list char.

(** UTF-8 decoding of a literal of this file into code points. *)
Fixpoint decode (bs : list Z) : str :=
  match bs with
  | [] => []
  | b :: r =>
    if b <? 128 then b :: decode r
    else if b <? 224 then
      match r with
      | c1 :: r1 => ((b - 192) * 64 + (c1 - 128)) :: decode r1
      | _ => []
      end
    else if b <? 240 then
      match r with
      | c1 :: c2 :: r2 =>
        ((b - 224) * 4096 + (c1 - 128) * 64 + (c2 - 128)) :: decode r2
      | _ => []
      end
    else
      match r with
      | c1 :: c2 :: c3 :: r3 =>
        ((b - 240) * 262144 + (c1 - 128) * 4096 + (c2 - 128) * 64 + (c3 - 128))
          :: decode r3
      | _ => []
      end
  end.

Definition bytes_of (s : string) : list Z :=
  map (fun a => Z.of_N (N_of_ascii a)) (list_ascii_of_string s).

Definition utf8 (s : string) : str := decode (bytes_of s).

(** [str1 == str2] *)
Fixpoint eqb (a b : str) : bool :=
  match a, b with
  | [], [] => true
  | x :: a', y :: b' => (x =? y) && eqb a' b'
  | _, _ => false
  end.

(** Truthiness of a string: [if s:] *)
Definition truthy (s : str) : bool :=
  match s with [] => false | _ => true end.

(** [s.startswith(p)], returning what follows the prefix. *)
Fixpoint strip_prefix (p s : str) : option str :=
  match p, s with
  | [], _ => Some s
  | x :: p', y :: s' => if x =? y then strip_prefix p' s' else None
  | _ :: _, [] => None
  end.

Definition startswith (s p : str) : bool :=
  match strip_prefix p s with Some _ => true | None => false end.

(** [needle in hay] *)
Fixpoint contains (needle hay : str) : bool :=
  match strip_prefix needle hay with
  | Some _ => true
  | None => match hay with [] => false | _ :: hay' => contains needle hay' end
  end.

(** [c in s] for a one-character string [c]. *)
Definition char_in (c : char) (s : str) : bool := existsb (Z.eqb c) s.

(** [str.isspace] on one character, which is also the class [\s] of [re]
    on text patterns (Unicode 14, as shipped with CPython 3.11). *)
Definition isspace (c : char) : bool :=
  ((9 <=? c) && (c <=? 13)) || ((28 <=? c) && (c <=? 32))
  || (c =? 133) || (c =? 160) || (c =? 5760)
  || ((8192 <=? c) && (c <=? 8202))
  || (c =? 8232) || (c =? 8233) || (c =? 8239) || (c =? 8287) || (c =? 12288).

(** First code point of every block of ten decimal digits (category Nd). *)
Definition decimal_blocks : list Z :=
  [ 48; 1632; 1776; 1984; 2406; 2534; 2662; 2790; 2918; 3046; 3174; 3302;
    3430; 3558; 3664; 3792; 3872; 4160; 4240; 6112; 6160; 6470; 6608; 6784;
    6800; 6992; 7088; 7232; 7248; 42528; 43216; 43264; 43472; 43504; 43600;
    44016; 65296; 66720; 68912; 69734; 69872; 69942; 70096; 70384; 70736;
    70864; 71248; 71360; 71472; 71904; 72016; 72784; 73040; 73120; 92768;
    92864; 93008; 120782; 120792; 120802; 120812; 120822; 123200; 123632;
    125264; 130032 ].

(** Value of a decimal digit, [None] for any other character. *)
Definition decimal_value (c : char) : option Z :=
  match find (fun b => (b <=? c) && (c <? b + 10)) decimal_blocks with
  | Some b => Some (c - b)
  | None => None
  end.

(** The class [\d] of [re], and [str.isdecimal] on one character. *)
Definition isdecimal (c : char) : bool :=
  match decimal_value c with Some _ => true | None => false end.

Fixpoint lstrip (s : str) : str :=
  match s with
  | c :: s' => if isspace c then lstrip s' else s
  | [] => []
  end.

(** [s.strip()] *)
Definition strip (s : str) : str := rev (lstrip (rev (lstrip s))).

(** [s.replace(old, new)] for a non-empty [old]; with an empty [old] the
    text is returned unchanged, which is what the two uses with an empty
    replacement give in Python as well. The counter [skip] steps over the
    rest of an occurrence that was just replaced. *)
Fixpoint replace_aux (old new s : str) (skip : nat) : str :=
  match s with
  | [] => []
  | c :: s' =>
    match skip with
    | S k => replace_aux old new s' k
    | O =>
      match old, strip_prefix old s with
      | _ :: old', Some _ => new ++ replace_aux old new s' (length old')
      | _, _ => c :: replace_aux old new s' O
      end
    end
  end.

Definition replace (old new s : str) : str := replace_aux old new s O.

(** [s.split('\n')] *)
Fixpoint split_lines_aux (cur : str) (s : str) : list str :=
  match s with
  | [] => [rev cur]
  | c :: s' =>
    if c =? 10 then rev cur :: split_lines_aux [] s'
    else split_lines_aux (c :: cur) s'
  end.

Definition split_lines (s : str) : list str := split_lines_aux [] s.

(** ['\n'.join(l)] *)
Fixpoint join_lines (l : list str) : str :=
  match l with
  | [] => []
  | [x] => x
  | x :: l' => x ++ 10 :: join_lines l'
  end.

(** Code-point order of Python strings: [a < b] and [a <= b]. *)
Fixpoint ltb (a b : str) : bool :=
  match a, b with
  | [], _ :: _ => true
  | x :: a', y :: b' => (x <? y) || ((x =? y) && ltb a' b')
  | _, [] => false
  end.

Definition leb (a b : str) : bool := negb (ltb b a).

(** [any(k in text for k in keywords)] *)
Definition any_in (text : str) (keywords : list str) : bool :=
  existsb (fun k => contains k text) keywords.

End PyStr.

Import PyStr.

(** ** Regular expressions of [re]

    The fragment the program's patterns are written in: literals, character
    classes, concatenation, ordered alternation, the greedy option [r?],
    bounded or unbounded repetition of a character class (greedy or lazy),
    numbered capturing groups and the anchor [^]. The matcher backtracks in
    the order [re] does: the first alternative first, a greedy repetition
    from the longest run down, a lazy one from the shortest run up. *)

Module Regex.

Inductive regex : Type :=
| Eps
| Bol
| Lit (s : str)
| Cls (p : char -> bool)
| Cat (r1 r2 : regex)
| Alt (r1 r2 : regex)
| Opt (r : regex)
| Rep (p : char -> bool) (lo : nat) (hi : option nat) (greedy : bool)
| Grp (n : nat) (r : regex).

(** The text of each group that took part in the match. *)
Definition caps := list (nat * str).

Fixpoint group (c : caps) (n : nat) : option str :=
  match c with
  | [] => None
  | (m, s) :: c' => if Nat.eqb m n then Some s else group c' n
  end.

Definition more_allowed (hi : option nat) : bool :=
  match hi with Some O => false | _ => true end.

Definition dec_hi (hi : option nat) : option nat :=
  match hi with Some h => Some (pred h) | None => None end.

Section Matcher.
Context {A : Type}.

(** [p{lo,hi}] at position [pos] of the text, [s] being what is left. *)
Fixpoint rep (p : char -> bool) (lo : nat) (hi : option nat) (greedy : bool)
    (pos : nat) (s : str) (k : nat -> str -> option A) : option A :=
  let stop := match lo with O => k pos s | S _ => None end in
  match s with
  | x :: s' =>
    if p x && more_allowed hi then
      if greedy then
        match rep p (pred lo) (dec_hi hi) greedy (S pos) s' k with
        | Some a => Some a
        | None => stop
        end
      else
        match stop with
        | Some a => Some a
        | None => rep p (pred lo) (dec_hi hi) greedy (S pos) s' k
        end
    else stop
  | [] => stop
  end.

(** Match [r] at position [pos], then continue with [k]. *)
Fixpoint mt (r : regex) (pos : nat) (s : str) (c : caps)
    (k : nat -> str -> caps -> option A) : option A :=
  match r with
  | Eps => k pos s c
  | Bol => match pos with O => k pos s c | S _ => None end
  | Lit l =>
    match strip_prefix l s with
    | Some s' => k (pos + length l)%nat s' c
    | None => None
    end
  | Cls p =>
    match s with
    | x :: s' => if p x then k (S pos) s' c else None
    | [] => None
    end
  | Cat r1 r2 => mt r1 pos s c (fun pos' s' c' => mt r2 pos' s' c' k)
  | Alt r1 r2 =>
    match mt r1 pos s c k with
    | Some a => Some a
    | None => mt r2 pos s c k
    end
  | Opt r1 =>
    match mt r1 pos s c k with
    | Some a => Some a
    | None => k pos s c
    end
  | Rep p lo hi greedy => rep p lo hi greedy pos s (fun pos' s' => k pos' s' c)
  | Grp n r1 =>
    mt r1 pos s c
       (fun pos' s' c' => k pos' s' ((n, firstn (pos' - pos) s) :: c'))
  end.

End Matcher.

(** A match object: where the match starts and ends, and its groups. *)
Record match_obj := { m_start : nat; m_end : nat; m_caps : caps }.

(** [pattern.match(text)], the text being at position [pos]. *)
Definition match_at (r : regex) (pos : nat) (s : str) : option match_obj :=
  mt r pos s [] (fun e _ c =>
    Some {| m_start := pos; m_end := e; m_caps := c |}).

Definition re_match (r : regex) (s : str) : option match_obj := match_at r O s.

(** [pattern.search(text)]: the match at the leftmost position that has one. *)
Fixpoint search_from (r : regex) (pos : nat) (s : str) : option match_obj :=
  match match_at r pos s with
  | Some m => Some m
  | None =>
    match s with
    | [] => None
    | _ :: s' => search_from r (S pos) s'
    end
  end.

Definition search (r : regex) (s : str) : option match_obj := search_from r O s.

(** [re.findall(pattern, text)] for a pattern with no group: the matched
    texts, left to right, without overlap. [skip] steps over the rest of a
    match just reported. *)
Fixpoint findall_from (r : regex) (pos : nat) (s : str) (skip : nat)
  : list str :=
  match skip, s with
  | S k, _ :: s' => findall_from r (S pos) s' k
  | S _, [] => []
  | O, _ =>
    match match_at r pos s, s with
    | Some m, _ :: s' =>
      firstn (m_end m - pos) s
        :: findall_from r (S pos) s' (pred (m_end m - pos))
    | Some m, [] => [ [] ]
    | None, _ :: s' => findall_from r (S pos) s' O
    | None, [] => []
    end
  end.

Definition findall (r : regex) (s : str) : list str := findall_from r O s O.

(** Number of capturing groups of a pattern. *)
Fixpoint ngroups (r : regex) : nat :=
  match r with
  | Cat r1 r2 | Alt r1 r2 => Nat.max (ngroups r1) (ngroups r2)
  | Opt r1 => ngroups r1
  | Grp n r1 => Nat.max n (ngroups r1)
  | _ => O
  end.

(** [match.groups()] *)
Definition groups (r : regex) (m : match_obj) : list (option str) :=
  map (fun n => group (m_caps m) (S n)) (seq 0 (ngroups r)).

(** [re.sub(pattern, '', text)] for a pattern anchored by [^]: only a match
    at the start of the text is removed. *)
Definition sub_at_start (r : regex) (s : str) : str :=
  match re_match r s with
  | Some m => skipn (m_end m) s
  | None => s
  end.

Definition any_char (c : char) : bool := negb (c =? 10).
Definition in_range (lo hi : Z) (c : char) : bool := (lo <=? c) && (c <=? hi).
Definition in_set (set : str) (c : char) : bool := char_in c set.

(** A sequence of patterns, and an ordered choice between patterns. *)
Fixpoint cat (rs : list regex) : regex :=
  match rs with
  | [] => Eps
  | [r] => r
  | r :: rs' => Cat r (cat rs')
  end.

Fixpoint alt (rs : list regex) : regex :=
  match rs with
  | [] => Eps
  | [r] => r
  | r :: rs' => Alt r (alt rs')
  end.

Definition lit (s : string) : regex := Lit (utf8 s).

(** [\s*], [\d+], [\d*], [.*] and [.*?] *)
Definition spaces : regex := Rep isspace 0 None true.
Definition digits1 : regex := Rep isdecimal 1 None true.
Definition digits0 : regex := Rep isdecimal 0 None true.
Definition dot_star : regex := Rep any_char 0 None true.
Definition dot_star_lazy : regex := Rep any_char 0 None false.

End Regex.

Import Regex.

(** ** [int(text)] *)

Module PyInt.

(** Digits with single underscores between them, as [int] reads them. *)
Fixpoint int_digits (acc : Z) (after_digit : bool) (s : str) : option Z :=
  match s with
  | [] => if after_digit then Some acc else None
  | c :: s' =>
    match decimal_value c with
    | Some d => int_digits (acc * 10 + d) true s'
    | None =>
      if (c =? 95) && after_digit then int_digits acc false s' else None
    end
  end.

(** [sys.int_info.default_max_str_digits]: the conversion of a text with
    more decimal digits than this is refused, leading zeros included; the
    sign, the blanks around and the underscores are not counted. The program
    does not change the limit. *)
Definition max_str_digits : Z := 4300.

Definition digit_count (s : str) : Z := Z.of_nat (length (filter isdecimal s)).

(** [int(s)]: [None] stands for [ValueError]. *)
Definition int (s : str) : option Z :=
  if max_str_digits <? digit_count s then None
  else
    match strip s with
    | 43 :: r => int_digits 0 false r
    | 45 :: r => option_map Z.opp (int_digits 0 false r)
    | t => int_digits 0 false t
    end.

(** Digits that are not decimal digits (superscripts, circled digits and
    the like): [str.isdigit] accepts them, [int] does not. *)
Definition other_digits : list (Z * Z) :=
  [ (178, 179); (185, 185); (4969, 4977); (6618, 6618); (8304, 8304);
    (8308, 8313); (8320, 8329); (9312, 9320); (9332, 9340); (9352, 9360);
    (9450, 9450); (9461, 9469); (9471, 9471); (10102, 10110); (10112, 10120);
    (10122, 10130); (68160, 68163); (69216, 69224); (69714, 69722);
    (127232, 127242) ].

Definition isdigit_char (c : char) : bool :=
  isdecimal c || existsb (fun r => (fst r <=? c) && (c <=? snd r)) other_digits.

(** [s.isdigit()] *)
Definition isdigit (s : str) : bool := truthy s && forallb isdigit_char s.

End PyInt.

Import PyInt.

(** ** [difflib.SequenceMatcher(None, a, b).ratio()]

    The matcher with no junk predicate and the default [autojunk]: letters
    of a long [b] (200 or more) that fill over one percent of it take no part
    in seeding a match, though a match still extends over them. Indices are
    in [Z] because the algorithm looks up the index [j - 1] at [j = 0]. *)

Module Difflib.

Section SequenceMatcher.
Variables a b : str.

Definition item (s : str) (i : Z) : char := nth (Z.to_nat i) s 0.

Definition len (s : str) : Z := Z.of_nat (length s).

Fixpoint indices_from (x : char) (j : Z) (s : str) : list Z :=
  match s with
  | [] => []
  | y :: s' =>
    if x =? y then j :: indices_from x (j + 1) s' else indices_from x (j + 1) s'
  end.

Definition popular (x : char) : bool :=
  (200 <=? len b) && (len b / 100 + 1 <? len (indices_from x 0 b)).

(** [b2j.get(x, [])] after the popular letters were purged. *)
Definition b2j (x : char) : list Z :=
  if popular x then [] else indices_from x 0 b.

Fixpoint j2len_get (d : list (Z * Z)) (j : Z) : Z :=
  match d with
  | [] => 0
  | (j', k) :: d' => if j' =? j then k else j2len_get d' j
  end.

Record best := { besti : Z; bestj : Z; bestsize : Z }.

(** The inner loop of [find_longest_match] over the places [j] where
    [a[i]] occurs in [b]. *)
Fixpoint row (blo bhi i : Z) (js : list Z) (j2len newj2len : list (Z * Z))
    (bst : best) : list (Z * Z) * best :=
  match js with
  | [] => (newj2len, bst)
  | j :: js' =>
    if j <? blo then row blo bhi i js' j2len newj2len bst
    else if bhi <=? j then (newj2len, bst)
    else
      let k := j2len_get j2len (j - 1) + 1 in
      row blo bhi i js' j2len ((j, k) :: newj2len)
          (if bestsize bst <? k
           then {| besti := i - k + 1; bestj := j - k + 1; bestsize := k |}
           else bst)
  end.

(** The outer loop, over [i] in [range(alo, ahi)]: [n] rows are left. *)
Fixpoint rows (blo bhi i : Z) (n : nat) (j2len : list (Z * Z)) (bst : best)
  : best :=
  match n with
  | O => bst
  | S n' =>
    let (newj2len, bst') := row blo bhi i (b2j (item a i)) j2len [] bst in
    rows blo bhi (i + 1) n' newj2len bst'
  end.

(** The two loops that stretch the best block over equal neighbours; each
    runs at most [n] times, the room there is on that side. *)
Fixpoint extend_left (alo blo : Z) (n : nat) (bst : best) : best :=
  match n with
  | O => bst
  | S n' =>
    if (alo <? besti bst) && (blo <? bestj bst)
       && (item a (besti bst - 1) =? item b (bestj bst - 1))
    then extend_left alo blo n'
           {| besti := besti bst - 1; bestj := bestj bst - 1;
              bestsize := bestsize bst + 1 |}
    else bst
  end.

Fixpoint extend_right (ahi bhi : Z) (n : nat) (bst : best) : best :=
  match n with
  | O => bst
  | S n' =>
    if (besti bst + bestsize bst <? ahi) && (bestj bst + bestsize bst <? bhi)
       && (item a (besti bst + bestsize bst) =? item b (bestj bst + bestsize bst))
    then extend_right ahi bhi n'
           {| besti := besti bst; bestj := bestj bst;
              bestsize := bestsize bst + 1 |}
    else bst
  end.

Definition find_longest_match (alo ahi blo bhi : Z) : best :=
  let b0 := {| besti := alo; bestj := blo; bestsize := 0 |} in
  let b1 := rows blo bhi alo (Z.to_nat (ahi - alo)) [] b0 in
  let b2 := extend_left alo blo (Z.to_nat (besti b1 - alo)) b1 in
  extend_right ahi bhi (Z.to_nat (ahi - (besti b2 + bestsize b2))) b2.

(** Sum of the sizes of the blocks [get_matching_blocks] collects from the
    window [(alo, ahi, blo, bhi)]: the longest block, then the windows left
    and right of it. [None] when [fuel] nested windows were not enough. *)
Fixpoint matching_size (fuel : nat) (alo ahi blo bhi : Z) : option Z :=
  match fuel with
  | O => None
  | S fuel' =>
    let m := find_longest_match alo ahi blo bhi in
    let (i, j) := (besti m, bestj m) in
    let k := bestsize m in
    if k =? 0 then Some 0
    else
      match
        (if (alo <? i) && (blo <? j)
         then matching_size fuel' alo i blo j else Some 0),
        (if (i + k <? ahi) && (j + k <? bhi)
         then matching_size fuel' (i + k) ahi (j + k) bhi else Some 0)
      with
      | Some l, Some r => Some (k + l + r)
      | _, _ => None
      end
  end.

(** [sum(triple[-1] for triple in self.get_matching_blocks())]; a window
    shrinks by at least one letter of [a] at each level, so [length a + 1]
    levels are enough (lemma [matches_fuel_enough]). *)
Definition matches : Z :=
  match matching_size (S (length a)) 0 (len a) 0 (len b) with
  | Some m => m
  | None => 0
  end.

(** [ratio()]: [2.0 * matches / length], and [1.0] for two empty texts. The
    quotient is kept exact: the program only compares it with [0.6] and with
    other ratios, and for texts shorter than 2^50 letters the rounding of the
    floating-point division decides none of these comparisons. *)
Definition ratio : Q :=
  if len a + len b =? 0 then 1%Q
  else Qmake (2 * matches) (Z.to_pos (len a + len b)).

End SequenceMatcher.

End Difflib.

(** ** Python dictionaries

    A [dict] keeps its keys in insertion order; assigning to a key that is
    present replaces the value where it stands. Keys are compared by [eqk]. *)

Module PyDict.

Section Dict.
Context {K V : Type} (eqk : K -> K -> bool).

Definition dict := list (K * V).

Fixpoint get (d : dict) (k : K) : option V :=
  match d with
  | [] => None
  | (k', v) :: d' => if eqk k' k then Some v else get d' k
  end.

Definition mem (d : dict) (k : K) : bool :=
  match get d k with Some _ => true | None => false end.

(** [d[k] = v] *)
Fixpoint set (d : dict) (k : K) (v : V) : dict :=
  match d with
  | [] => [(k, v)]
  | (k', v') :: d' => if eqk k' k then (k', v) :: d' else (k', v') :: set d' k v
  end.

Definition keys (d : dict) : list K := map fst d.
Definition values (d : dict) : list V := map snd d.

End Dict.

(** [json.load] of an object: a later member with the same name wins and
    keeps the place of the first. *)
Definition of_members {V : Type} (members : list (str * V)) : dict :=
  fold_left (fun d kv => set PyStr.eqb d (fst kv) (snd kv)) members [].

End PyDict.

(** ** [DataProcessor] *)

Module DataProcessor.

Definition CHINESE_NUM_DICT : list (str * Z) :=
  [ (utf8 "一", 1); (utf8 "二", 2); (utf8 "三", 3); (utf8 "四", 4);
    (utf8 "五", 5); (utf8 "六", 6); (utf8 "七", 7); (utf8 "八", 8);
    (utf8 "九", 9); (utf8 "十", 10); (utf8 "两", 2);
    (utf8 "壹", 1); (utf8 "贰", 2); (utf8 "叁", 3); (utf8 "肆", 4);
    (utf8 "伍", 5); (utf8 "陆", 6); (utf8 "柒", 7); (utf8 "捌", 8);
    (utf8 "玖", 9); (utf8 "拾", 10) ].

(** The bracket expression of the two count patterns, as it is written:
    the bars between the numerals are members of the class. *)
Definition count_class : str :=
  utf8 "一|二|三|四|五|六|七|八|九|十|两|壹|贰|叁|肆|伍|陆|柒|捌|玖|拾".

Definition count_group : regex :=
  Grp 1 (Alt digits1 (Cls (in_set count_class))).

Definition count_patterns : list regex :=
  [ cat [count_group; spaces; lit "户"];
    cat [count_group; spaces; lit "户"; dot_star; lit "接入号"] ].

Fixpoint first_match (patterns : list regex) (text : str) : option match_obj :=
  match patterns with
  | [] => None
  | r :: rest =>
    match search r text with
    | Some m => Some m
    | None => first_match rest text
    end
  end.

(** [extract_number(text)]. Nothing in it catches an exception: [None]
    stands for the one that escapes, the [ValueError] of [int] on a count of
    more than 4300 digits (the group of the two patterns takes part in every
    match, so [num_str] is never [None]). *)
Definition extract_number (text : str) : option Z :=
  if negb (truthy text) then Some 1
  else
    let text_clean := replace (utf8 " ") [] text in
    match first_match count_patterns text_clean with
    | Some m =>
      match group (m_caps m) 1 with
      | Some num_str =>
        if isdigit num_str then int num_str
        else
          match PyDict.get PyStr.eqb CHINESE_NUM_DICT num_str with
          | Some n => Some n
          | None => Some 1
          end
      | None => None
      end
    | None => Some 1
    end.

Definition _POINTS_PATTERNS : list regex :=
  [ cat [Opt (alt [lit "得"; lit "加"; lit "+"; lit "增加"]); spaces;
         Grp 1 digits1; spaces; Opt (alt [lit "分"; lit "积分"])];
    cat [Grp 1 digits1; lit "顺档"; Grp 2 digits1; lit "+"; Grp 3 digits1];
    cat [lit "顺档"; digits0; lit "+"; Grp 1 digits1];
    cat [Grp 1 digits1; lit "顺档+"; Grp 2 digits1] ].

(** What a call that may let a [TypeError] escape gives back. *)
Inductive result (A : Type) : Type :=
| Return (a : A)
| TypeError.
Arguments Return {A} a.
Arguments TypeError {A}.

(** [int(g)] inside [try ... except (ValueError, IndexError)], [g] being a
    group of a match: [None] when the conversion is given up. A group that
    took no part in the match is [None] in Python, and [int(None)] is a
    [TypeError], which that clause does not catch. *)
Definition int_group (g : option str) : result (option Z) :=
  match g with
  | Some s => Return (int s)
  | None => TypeError
  end.

(** The loop over the tier-slide patterns [_POINTS_PATTERNS[1:]]. *)
Fixpoint slide_points (patterns : list regex) (text : str) : option Z :=
  match patterns with
  | [] => None
  | r :: rest =>
    match search r text with
    | Some m =>
      let groups := Regex.groups r m in
      let int_of g := match g with Some s => int s | None => None end in
      let value :=
        if Nat.eqb (length groups) 3 then
          match int_of (nth 1 groups None), int_of (nth 0 groups None),
                int_of (last groups None) with
          | Some y, Some x, Some z => Some (y - x + z)
          | _, _, _ => None
          end
        else int_of (last groups None) in
      match value with
      | Some v => Some v
      | None => slide_points rest text
      end
    | None => slide_points rest text
    end
  end.

(** The part of [extract_points_optimized] after the custom pattern. *)
Definition default_points (text : str) : option Z :=
  let regular :=
    match search (nth 0 _POINTS_PATTERNS Eps) text with
    | Some m =>
      match group (m_caps m) 1 with Some s => int s | None => None end
    | None => None
    end in
  match regular with
  | Some n => Some n
  | None => slide_points (tl _POINTS_PATTERNS) text
  end.

(** [extract_points_optimized(text, points_regex)]; [points_regex] is the
    compiled custom pattern, [None] when none is given. A custom pattern
    with no group makes [match.group(1)] an [IndexError], which is caught. *)
Definition extract_points_optimized (text : str) (points_regex : option regex)
  : result (option Z) :=
  let custom :=
    match points_regex with
    | Some r =>
      match search r text with
      | Some m =>
        if Nat.leb 1 (ngroups r) then int_group (group (m_caps m) 1)
        else Return None
      | None => Return None
      end
    | None => Return None
    end in
  match custom with
  | TypeError => TypeError
  | Return (Some n) => Return (Some n)
  | Return None => Return (default_points text)
  end.

Section Pinyin.

(** [pypinyin.lazy_pinyin]: the romanised syllables of a text. The
    dictionary belongs to that library and is left open here; it keeps a
    run of characters that are not Han as it is. *)
Variable lazy_pinyin : str -> list str.

Definition to_pinyin (text : str) : str := concat (lazy_pinyin text).

Definition pinyin_similarity (name1 name2 : str) : Q :=
  if negb (truthy name1) || negb (truthy name2) then 0%Q
  else Difflib.ratio (to_pinyin name1) (to_pinyin name2).

(** [[一-龥]{2,4}] *)
Definition chinese_word : regex := Rep (in_range 19968 40869) 2 (Some 4%nat) true.

(** A branch-to-managers map as [json.load] gives it. *)
Definition roster := PyDict.dict (K := str) (V := list str).

(** [for x in xs: for y in ys: if test x y: return x] *)
Definition first_pair (xs ys : list str) (test : str -> str -> bool)
  : option str :=
  find (fun x => existsb (test x) ys) xs.

Definition find_manager (branch text : str) (branch_managers : roster)
  : option str :=
  let managers :=
    match PyDict.get PyStr.eqb branch_managers branch with
    | Some l => l
    | None => []
    end in
  match find (fun manager => contains manager text) managers with
  | Some manager => Some manager
  | None =>
    let chinese_words := findall chinese_word text in
    match first_pair managers chinese_words PyStr.eqb with
    | Some manager => Some manager
    | None =>
      match first_pair managers chinese_words
              (fun manager word =>
                 negb (Qle_bool (pinyin_similarity manager word) (6 # 10)))
      with
      | Some manager => Some manager
      | None =>
        first_pair managers chinese_words
          (fun manager word =>
             Nat.leb 2 (length manager) && Nat.leb 2 (length word)
             && char_in (nth 0 manager 0) word
             && char_in (nth 1 manager 0) word)
      end
    end
  end.

End Pinyin.

End DataProcessor.

(** ** Sorting

    [sorted(xs, key=...)] is stable, so its result is the one of any stable
    sort; insertion from the right is the simplest of them. *)

Module PySort.

Section Sorted.
Context {T : Type} (key : T -> str).

Fixpoint insert (x : T) (l : list T) : list T :=
  match l with
  | [] => [x]
  | y :: l' => if PyStr.leb (key x) (key y) then x :: l else y :: insert x l'
  end.

Definition sorted (l : list T) : list T := fold_right insert [] l.

End Sorted.

End PySort.

(** ** The manager pipeline: [ReportProcessor] of [generate_report] *)

Module ReportProcessor.

(** The six business categories, in the order of [_category_mapping]. *)
Inductive category : Type :=
| lock_storage
| current_month_recovery
| last_month_recovery
| high_risk_recovery
| dismantle_retention
| downgrade_retention.

Definition category_id (c : category) : str :=
  match c with
  | lock_storage => utf8 "lock_storage"
  | current_month_recovery => utf8 "current_month_recovery"
  | last_month_recovery => utf8 "last_month_recovery"
  | high_risk_recovery => utf8 "high_risk_recovery"
  | dismantle_retention => utf8 "dismantle_retention"
  | downgrade_retention => utf8 "downgrade_retention"
  end.

(** The column a category is counted in. *)
Definition chinese_name (c : category) : str :=
  match c with
  | lock_storage => utf8 "锁存"
  | current_month_recovery => utf8 "当月复机"
  | last_month_recovery => utf8 "上月复机"
  | high_risk_recovery => utf8 "高危复机"
  | dismantle_retention => utf8 "拆机挽留"
  | downgrade_retention => utf8 "降档挽留"
  end.

Definition _category_mapping : list category :=
  [ lock_storage; current_month_recovery; last_month_recovery;
    high_risk_recovery; dismantle_retention; downgrade_retention ].

(** [category in ["current_month_recovery", "last_month_recovery",
    "high_risk_recovery"]] *)
Definition is_recovery (c : category) : bool :=
  match c with
  | current_month_recovery | last_month_recovery | high_risk_recovery => true
  | _ => false
  end.

(** One row of the report: the columns 分支局, 存量经理, 晒照, the six
    category columns and 合计. *)
Record row := {
  branch_col : str;
  manager_col : str;
  photo_col : str;
  lock_col : Z;
  current_col : Z;
  last_col : Z;
  high_risk_col : Z;
  dismantle_col : Z;
  downgrade_col : Z;
  total_col : Z
}.

(** [data[chinese_name]] and [data[chinese_name] = v] *)
Definition count (r : row) (c : category) : Z :=
  match c with
  | lock_storage => lock_col r
  | current_month_recovery => current_col r
  | last_month_recovery => last_col r
  | high_risk_recovery => high_risk_col r
  | dismantle_retention => dismantle_col r
  | downgrade_retention => downgrade_col r
  end.

(** A row from its labels, its six counters and its total. *)
Definition make_row (b m p : str) (f : category -> Z) (t : Z) : row :=
  {| branch_col := b; manager_col := m; photo_col := p;
     lock_col := f lock_storage;
     current_col := f current_month_recovery;
     last_col := f last_month_recovery;
     high_risk_col := f high_risk_recovery;
     dismantle_col := f dismantle_retention;
     downgrade_col := f downgrade_retention;
     total_col := t |}.

Definition category_eqb (c d : category) : bool :=
  match c, d with
  | lock_storage, lock_storage
  | current_month_recovery, current_month_recovery
  | last_month_recovery, last_month_recovery
  | high_risk_recovery, high_risk_recovery
  | dismantle_retention, dismantle_retention
  | downgrade_retention, downgrade_retention => true
  | _, _ => false
  end.

Definition set_count (r : row) (c : category) (v : Z) : row :=
  make_row (branch_col r) (manager_col r) (photo_col r)
    (fun d => if category_eqb d c then v else count r d) (total_col r).

(** [_update_total]: 合计 is the sum of the six counters, in this order. *)
Definition update_total (r : row) : row :=
  make_row (branch_col r) (manager_col r) (photo_col r) (count r)
    (fold_left Z.add (map (count r) _category_mapping) 0).

(** A category of the business configuration. *)
Record rule := { keywords : list str; exclude_keywords : list str }.

(** [business_config["business_categories"]], empty when the file or the
    member is missing. *)
Definition business_categories := PyDict.dict (K := str) (V := rule).

Definition key := (str * str)%type.

Definition key_eqb (k1 k2 : key) : bool :=
  PyStr.eqb (fst k1) (fst k2) && PyStr.eqb (snd k1) (snd k2).

(** [x in s] and [s.add(x)] for a set of strings; the list keeps each
    member once. *)
Definition set_mem (x : str) (s : list str) : bool := existsb (PyStr.eqb x) s.

Definition set_add (x : str) (s : list str) : list str :=
  if set_mem x s then s else s ++ [x].

Record state := {
  manager_data : PyDict.dict (K := key) (V := row);
  exception_records : list str;
  processed_lines : list str;
  all_lines : list str
}.

Definition _TITLE_PATTERNS : list regex :=
  [ cat [Bol; lit "["; dot_star_lazy; lit "]"];
    cat [Bol; lit "【"; dot_star_lazy; lit "】"];
    cat [Bol; dot_star; lit "月"; dot_star; lit "日"];
    cat [Bol; dot_star; lit "接龙"; dot_star; lit "群"];
    cat [Bol; dot_star; lit "循环"; dot_star; lit "服务"];
    cat [Bol; dot_star; lit "拆降"; dot_star; lit "挽留"];
    cat [Bol; Grp 1 (Alt digits1
           (Cls (in_set (utf8 "一二三四五六七八九十壹贰叁肆伍陆柒捌玖拾"))))] ].

Definition _TITLE_KEYWORDS : list str :=
  [ utf8 "接龙"; utf8 "循环"; utf8 "服务"; utf8 "挽留"; utf8 "群"; utf8 "统计" ].

Definition matches (r : regex) (s : str) : bool :=
  match re_match r s with Some _ => true | None => false end.

Definition _is_title_line (line0 : str) : bool :=
  let line := strip line0 in
  if negb (truthy line) then true
  else if existsb (fun pattern => matches pattern line)
            (removelast _TITLE_PATTERNS) then true
  else if negb (matches (last _TITLE_PATTERNS Eps) (replace (utf8 " ") [] line))
  then any_in line _TITLE_KEYWORDS
  else false.

(** [self._digit_pattern.search(line)] *)
Definition has_digit (line : str) : bool :=
  match search digits1 line with Some _ => true | None => false end.

Definition _should_exclude (text : str) (exclude_keywords : list str) : bool :=
  any_in text exclude_keywords.

Definition _match_keywords (text : str) (keywords : list str) : bool :=
  any_in text keywords.

Definition _get_default_keywords (c : category) : list str := [].

(** Truthiness of a list. *)
Definition nonempty {T : Type} (l : list T) : bool :=
  match l with [] => false | _ => true end.

(** A [for] loop whose body may raise: the first exception ends the loop
    and leaves it. [None] stands for the exception. *)
Fixpoint for_each {S X : Type} (body : S -> X -> option S) (xs : list X)
    (st : S) : option S :=
  match xs with
  | [] => Some st
  | x :: rest =>
    match body st x with
    | Some st' => for_each body rest st'
    | None => None
    end
  end.

Section Processor.
Variable lazy_pinyin : str -> list str.
Variable branch_managers : DataProcessor.roster.
Variable business_config : business_categories.

(** [_init_manager_data] *)
Definition zero_row (branch manager : str) : row :=
  make_row branch manager [] (fun _ => 0) 0.

Definition _init_manager_data : PyDict.dict (K := key) (V := row) :=
  fold_left
    (fun d item =>
       fold_left
         (fun d' manager =>
            PyDict.set key_eqb d' (fst item, manager) (zero_row (fst item) manager))
         (snd item) d)
    branch_managers [].

Definition init : state :=
  {| manager_data := _init_manager_data; exception_records := [];
     processed_lines := []; all_lines := [] |}.

(** [_get_config_keywords]: an object with no member at all is falsy in
    Python and sends [process_all_data] to the default keywords, of which
    there are none; it is read here as the rule with two empty lists, which
    matches nothing either. *)
Definition _get_config_keywords (c : category) : option rule :=
  PyDict.get PyStr.eqb business_config (category_id c).

(** One of the three passes of [_extract_branch_and_manager] over the
    branches: [name] is what is looked for and removed for a branch, [found]
    the test that it is there. *)
Fixpoint branch_pass (name : str -> str) (found : str -> str -> bool)
    (branches : list str) (line : str) : option (str * str * str) :=
  match branches with
  | [] => None
  | branch :: rest =>
    if found branch line then
      let remaining := replace (name branch) [] line in
      match DataProcessor.find_manager lazy_pinyin branch remaining branch_managers with
      | Some manager =>
        if truthy manager then Some (branch, manager, remaining)
        else branch_pass name found rest line
      | None => branch_pass name found rest line
      end
    else branch_pass name found rest line
  end.

Definition branch_short (branch : str) : str :=
  replace (utf8 "分局") [] (replace (utf8 "支局") [] branch).

Definition _extract_branch_and_manager (line : str)
  : option (str * str * str) :=
  let branches := PyDict.keys branch_managers in
  match branch_pass (fun b => b) (fun b l => contains b l) branches line with
  | Some r => Some r
  | None =>
    match branch_pass branch_short (fun b l => contains (branch_short b) l)
            branches line with
    | Some r => Some r
    | None =>
      branch_pass branch_short
        (fun b l => contains (branch_short b) l || contains b l) branches line
    end
  end.

(** The loop of [process_all_data] over the categories: the category the
    line is counted in, if any. *)
Fixpoint match_category (categories : list category) (line : str)
  : option category :=
  match categories with
  | [] => None
  | c :: rest =>
    match _get_config_keywords c with
    | Some config =>
      if nonempty (exclude_keywords config)
         && _should_exclude line (exclude_keywords config)
      then match_category rest line
      else if nonempty (keywords config)
              && _match_keywords line (keywords config)
      then Some c
      else match_category rest line
    | None =>
      let default_keywords := _get_default_keywords c in
      if nonempty default_keywords && any_in line default_keywords
      then Some c
      else match_category rest line
    end
  end.

(** The quantity a line adds to the counter of its category; [None] when
    [extract_number] raises. *)
Definition quantity (c : category) (line : str) : option Z :=
  if is_recovery c then DataProcessor.extract_number line else Some 1.

(** [manager_data[key][chinese_name] += num; _update_total(key)] *)
Definition add_count (d : PyDict.dict (K := key) (V := row)) (k : key)
    (c : category) (num : Z) : PyDict.dict :=
  match PyDict.get key_eqb d k with
  | Some r => PyDict.set key_eqb d k (update_total (set_count r c (count r c + num)))
  | None => d
  end.

(** The body of the loop of [process_all_data] for one line; [None] when
    the line makes [extract_number] raise: the loop has no [try], so the
    exception leaves the loop and [process_all_data]. *)
Definition process_line (st : state) (line0 : str) : option state :=
  let line := strip line0 in
  if negb (truthy line) || negb (has_digit line) then Some st
  else if _is_title_line line then Some st
  else
    let st1 :=
      if contains (utf8 "支局") line || contains (utf8 "分局") line
      then {| manager_data := manager_data st;
              exception_records := exception_records st;
              processed_lines := processed_lines st;
              all_lines := set_add line (all_lines st) |}
      else st in
    let except :=
      {| manager_data := manager_data st1;
         exception_records := exception_records st1 ++ [line];
         processed_lines := processed_lines st1;
         all_lines := all_lines st1 |} in
    match _extract_branch_and_manager line with
    | Some (branch, manager, _) =>
      if negb (truthy branch) then Some except
      else if negb (PyDict.mem key_eqb (manager_data st1) (branch, manager))
      then Some st1
      else
        match match_category _category_mapping line with
        | Some c =>
          match quantity c line with
          | Some num =>
            Some {| manager_data :=
                      add_count (manager_data st1) (branch, manager) c num;
                    exception_records := exception_records st1;
                    processed_lines := set_add line (processed_lines st1);
                    all_lines := all_lines st1 |}
          | None => None
          end
        | None => Some except
        end
    | None => Some except
    end.

Definition process_all_data (st : state) (lines : list str) : option state :=
  for_each process_line lines st.

(** [_process_unmatched_records]. [all_lines] is a Python set, which is
    walked in an order the language leaves open: [order] is that order. *)
Definition sweep_line (st : state) (line : str) : state :=
  let record st :=
    if negb (set_mem (strip line) (exception_records st))
    then {| manager_data := manager_data st;
            exception_records := exception_records st ++ [strip line];
            processed_lines := processed_lines st;
            all_lines := all_lines st |}
    else st in
  if negb (set_mem (strip line) (processed_lines st)) then
    match _extract_branch_and_manager line with
    | Some (branch, manager, _) =>
      if negb (truthy branch) || negb (truthy manager) then record st
      else record st
    | None => record st
    end
  else st.

Definition _process_unmatched_records (st : state) (order : list str) : state :=
  fold_left sweep_line order st.

(** [sum(m[column] for m in rows)] *)
Definition sum_of (f : row -> Z) (rows : list row) : Z :=
  fold_left Z.add (map f rows) 0.

(** The first loop of [generate_report]: the rows of each branch, in the
    order the branches and the rows are met, and all the rows. *)
Definition group_step (acc : PyDict.dict (K := str) (V := list row) * list row)
    (item : key * row) : PyDict.dict (K := str) (V := list row) * list row :=
  let branch := fst (fst item) in
  let data := snd item in
  let branch_groups := fst acc in
  let old :=
    match PyDict.get PyStr.eqb branch_groups branch with
    | Some l => l
    | None => []
    end in
  (PyDict.set PyStr.eqb branch_groups branch (old ++ [data]), snd acc ++ [data]).

Definition group_rows (d : PyDict.dict (K := key) (V := row))
  : PyDict.dict (K := str) (V := list row) * list row :=
  fold_left group_step d ([], []).

(** The 小计 row of a branch and the 总计 row. *)
Definition subtotal_row (branch : str) (branch_data : list row) : row :=
  make_row branch (utf8 "小计") []
    (fun c => sum_of (fun m => count m c) branch_data)
    (sum_of total_col branch_data).

Definition total_row (all_managers : list row) : row :=
  make_row (utf8 "总计") [] []
    (fun c => sum_of (fun m => count m c) all_managers)
    (sum_of total_col all_managers).

(** The rows of one branch followed by its 小计 row. *)
Definition branch_block
    (branch_groups : PyDict.dict (K := str) (V := list row)) (branch : str)
  : list row :=
  let branch_data :=
    match PyDict.get PyStr.eqb branch_groups branch with
    | Some l => l
    | None => []
    end in
  PySort.sorted manager_col branch_data ++ [subtotal_row branch branch_data].

(** The rows [generate_report] builds from the counters. *)
Definition report_rows (d : PyDict.dict (K := key) (V := row)) : list row :=
  let (branch_groups, all_managers) := group_rows d in
  flat_map (branch_block branch_groups)
    (PySort.sorted (fun b => b) (PyDict.keys branch_groups))
  ++ [total_row all_managers].

(** [ReportProcessor.generate_report] *)
Definition generate_report (st : state) (order : list str)
  : list row * list str :=
  let st' := _process_unmatched_records st order in
  (report_rows (manager_data st'), exception_records st').

(** The part of the function [generate_report] that reads the text and
    runs the processor; what follows it writes the workbook. [None] when
    [process_all_data] raises: the [except] clause of the function reports
    the failure, and there is no report and no exception list. *)
Definition run (dragon_text : str) (order : list str)
  : option (list row * list str) :=
  let lines :=
    map strip (filter (fun line => truthy (strip line)) (split_lines dragon_text)) in
  match process_all_data init lines with
  | Some st => Some (generate_report st order)
  | None => None
  end.

End Processor.

End ReportProcessor.

(** ** The channel pipeline: [generate_new_business_report] *)

Module ChannelReport.

Import DataProcessor.

(** A channel of the channel configuration: [{name, keywords}]. *)
Record channel_info := { name : str; channel_keywords : list str }.

Definition branch_channel_map := PyDict.dict (K := str) (V := list channel_info).

(** A row of the channel report: 分支局, 渠道名称, 业务笔数 and 积分. In
    [report_data] the last two are Python integers, which have no bound. *)
Record row := {
  branch_col : str;
  channel_col : str;
  count_col : Z;
  points_col : Z
}.

(** [pandas] makes a column of Python integers an [int64] column when they
    all fit in 64 bits, and the sum of such a column is kept in 64 bits: it
    wraps around. *)
Definition int64_half : Z := 9223372036854775808.

Definition int64_fits (z : Z) : bool := (- int64_half <=? z) && (z <? int64_half).

Definition wrap_int64 (z : Z) : Z :=
  (z + int64_half) mod (2 * int64_half) - int64_half.

(** The rows [report_data] starts from: one per channel of the map. *)
Definition seed_rows (channels : branch_channel_map) : list row :=
  flat_map
    (fun item =>
       map (fun channel_info =>
              {| branch_col := fst item; channel_col := name channel_info;
                 count_col := 0; points_col := 0 |})
           (snd item))
    channels.

(** [^\d+[.、，,)\s]*], the number an entry starts with. *)
Definition entry_number : regex :=
  cat [Bol; digits1;
       Rep (fun c => in_set (utf8 ".、，,)") c || isspace c) 0 None true].

Section Pipeline.

(** [str.lower], the case mapping of the Unicode database. *)
Variable lower : str -> str.
Variable channel_config : branch_channel_map.
Variable points_regex : option regex.
Variable business_config : ReportProcessor.business_categories.
(** [branch_manager_map] and [keywords] of the manager configuration. *)
Variable manager_map : roster.
Variable manager_keywords : list str.

(** The best keyword so far and its score, in hundredths. *)
Definition best := (option str * Z)%type.

Definition better (b : best) (keyword : str) (score : Z) : best :=
  if snd b <? score then (Some keyword, score) else b.

Definition exact_stage (text_lower : str) (b : best) (keyword : str) : best :=
  let keyword_lower := strip (lower keyword) in
  if contains keyword_lower text_lower then
    better b keyword
      (if Nat.leb (length keyword_lower) 2 then 50
       else if Nat.leb (length keyword_lower) 4 then 60 else 70)
  else b.

Definition name_stage (text_lower : str) (b : best) (keyword : str) : best :=
  let keyword_lower := strip (lower keyword) in
  if (contains (utf8 "支局") text_lower || contains (utf8 "分局") text_lower)
     && contains keyword_lower text_lower
  then better b keyword 85
  else if Nat.leb (length keyword_lower) 4 && contains keyword_lower text_lower
  then better b keyword 80
  else b.

(** The keyword [enhanced_fuzzy_match] returns. *)
Definition enhanced_fuzzy_match (text : str) (keywords : list str)
  : option str :=
  let text_lower := strip (lower text) in
  if negb (truthy text) || negb (ReportProcessor.nonempty keywords) then None
  else
    let b1 := fold_left (exact_stage text_lower) keywords (None, 0) in
    let b2 := fold_left (name_stage text_lower) keywords b1 in
    if 40 <=? snd b2 then fst b2 else None.

(** [all_keywords] and [keyword_to_mapping] of [find_best_match]. *)
Definition channel_entries : list (str * str) :=
  flat_map
    (fun item =>
       flat_map
         (fun channel => map (fun keyword => (keyword, name channel))
                             (channel_keywords channel))
         (snd item))
    channel_config.

Definition business_entries : list (str * str) :=
  flat_map
    (fun item =>
       map (fun keyword => (keyword, utf8 "业务_" ++ fst item))
           (ReportProcessor.keywords (snd item)))
    business_config.

Definition manager_entries : list (str * str) :=
  map (fun keyword =>
         if PyDict.mem PyStr.eqb manager_map keyword
         then (keyword, utf8 "分支局_" ++ keyword)
         else (keyword, utf8 "经理_" ++ keyword))
      manager_keywords.

Definition keyword_entries : list (str * str) :=
  channel_entries ++ business_entries ++ manager_entries.

Definition find_best_match (text : str) : option str :=
  let all_keywords := map fst keyword_entries in
  let keyword_to_mapping := PyDict.of_members keyword_entries in
  match enhanced_fuzzy_match text all_keywords with
  | Some matched_keyword =>
    if truthy matched_keyword then
      match PyDict.get PyStr.eqb keyword_to_mapping matched_keyword with
      | Some mapping_result =>
        if negb (startswith mapping_result (utf8 "业务_"))
           && negb (startswith mapping_result (utf8 "分支局_"))
           && negb (startswith mapping_result (utf8 "经理_"))
        then Some mapping_result
        else None
      | None => None
      end
    else None
  | None => None
  end.

(** [row["业务笔数"] += 1; row["积分"] += points] on the first row of the
    channel. *)
Fixpoint credit (rows : list row) (channel : str) (points : Z) : list row :=
  match rows with
  | [] => []
  | r :: rest =>
    if PyStr.eqb (channel_col r) channel then
      {| branch_col := branch_col r; channel_col := channel_col r;
         count_col := count_col r + 1; points_col := points_col r + points |}
        :: rest
    else r :: credit rest channel points
  end.

(** The state of the loop over the entries: the rows and the abnormal
    entries. *)
Definition loop_state := (list row * list str)%type.

Definition process_entry (st : result loop_state) (original_entry : str)
  : result loop_state :=
  match st with
  | TypeError => TypeError
  | Return (report_data, abnormal_entries) =>
    if negb (truthy (strip original_entry)) then st
    else
      let entry := strip (sub_at_start entry_number original_entry) in
      match find_best_match entry with
      | Some matched_channel =>
        if truthy matched_channel then
          match extract_points_optimized entry points_regex with
          | TypeError => TypeError
          | Return (Some points) =>
            Return (credit report_data matched_channel points, abnormal_entries)
          | Return None =>
            Return (report_data, abnormal_entries ++ [original_entry])
          end
        else Return (report_data, abnormal_entries ++ [original_entry])
      | None => Return (report_data, abnormal_entries ++ [original_entry])
      end
  end.

(** The branches of the rows, each once, in the order they are first met:
    the groups of [df.groupby('分支局', sort=False)]. *)
Fixpoint branches_of (seen : list str) (rows : list row) : list str :=
  match rows with
  | [] => []
  | r :: rest =>
    if ReportProcessor.set_mem (branch_col r) seen then branches_of seen rest
    else branch_col r :: branches_of (branch_col r :: seen) rest
  end.

Definition group_of (rows : list row) (branch : str) : list row :=
  filter (fun r => PyStr.eqb (branch_col r) branch) rows.

(** [group[column].sum()] and [df[column].sum()] on an [int64] column. *)
Definition sum_of (f : row -> Z) (rows : list row) : Z :=
  wrap_int64 (fold_left Z.add (map f rows) 0).

Definition subtotal_row (branch : str) (group : list row) : row :=
  {| branch_col := branch; channel_col := utf8 "小计";
     count_col := sum_of count_col group; points_col := sum_of points_col group |}.

Definition grand_total (rows : list row) : row :=
  {| branch_col := utf8 "总计"; channel_col := [];
     count_col := sum_of count_col rows; points_col := sum_of points_col rows |}.

(** The two numbers of a row fit in 64 bits. *)
Definition row_fits (r : row) : bool :=
  int64_fits (count_col r) && int64_fits (points_col r).

(** What a run of the function comes to: [Report], the rows of [final_df]
    and the abnormal entries; [Failure], an exception reached the [except]
    clause and there is no report; [Wide], a count or a score of
    [report_data] does not fit in 64 bits. In that last case [pandas] gives
    the column another type ([uint64] or [object]), on which the sums and
    the joined frame depend; it is kept apart here and nothing is stated
    about it. *)
Inductive outcome : Type :=
| Report (rows : list row) (abnormal_entries : list str)
| Failure
| Wide.

(** [final_df]. A frame with no row has no column 分支局, and [groupby]
    raises for want of it. *)
Definition final_rows (report_data : list row) (abnormal_entries : list str)
  : outcome :=
  match report_data with
  | [] => Failure
  | _ =>
    if forallb row_fits report_data
    then
      Report (flat_map
                (fun branch =>
                   group_of report_data branch
                     ++ [subtotal_row branch (group_of report_data branch)])
                (branches_of [] report_data)
              ++ [grand_total report_data])
             abnormal_entries
    else Wide
  end.

(** The part of the function that builds [final_df] and the list of the
    abnormal entries; what follows it writes the workbook. *)
Definition run (dragon_text : str) : outcome :=
  let entries := split_lines (strip dragon_text) in
  match fold_left process_entry entries (Return (seed_rows channel_config, [])) with
  | TypeError => Failure
  | Return (report_data, abnormal_entries) =>
    final_rows report_data abnormal_entries
  end.

End Pipeline.

End ChannelReport.

(** * Properties *)

Import DataProcessor.

(** ** Strings and dictionaries *)

Lemma str_eqb_eq (a b : str) : PyStr.eqb a b = true <-> a = b.
Proof.
  revert b; induction a as [|x a IH]; intros [|y b]; simpl; split;
    try congruence; try discriminate.
  - intros H. apply andb_true_iff in H as [Hx Hab].
    apply Z.eqb_eq in Hx. apply IH in Hab. congruence.
  - intros H. injection H as -> ->. rewrite Z.eqb_refl. simpl. now apply IH.
Qed.

Lemma str_eqb_refl (a : str) : PyStr.eqb a a = true.
Proof. now apply str_eqb_eq. Qed.

Lemma str_eqb_neq (a b : str) : PyStr.eqb a b = false <-> a <> b.
Proof.
  split.
  - intros H E. apply str_eqb_eq in E. congruence.
  - intros H. destruct (PyStr.eqb a b) eqn:E; [apply str_eqb_eq in E; contradiction | reflexivity].
Qed.

Lemma key_eqb_eq (a b : ReportProcessor.key) :
  ReportProcessor.key_eqb a b = true <-> a = b.
Proof.
  destruct a as [a1 a2], b as [b1 b2]. unfold ReportProcessor.key_eqb. simpl.
  rewrite andb_true_iff, !str_eqb_eq. split; [intros [-> ->]; reflexivity|].
  intros H; injection H; auto.
Qed.

Lemma strip_prefix_app (p s r : str) :
  strip_prefix p s = Some r <-> s = p ++ r.
Proof.
  revert s; induction p as [|x p IH]; intros s; simpl.
  - split; congruence.
  - destruct s as [|y s]; [split; discriminate|].
    destruct (Z.eqb_spec x y) as [->|N].
    + rewrite IH. split; [intros ->; reflexivity | intros H; now injection H].
    + split; [discriminate | intros H; injection H; congruence].
Qed.

Lemma contains_spec (needle hay : str) :
  contains needle hay = true <-> exists pre post, hay = pre ++ needle ++ post.
Proof.
  induction hay as [|c hay IH]; simpl.
  - destruct (strip_prefix needle []) as [r|] eqn:E.
    + apply strip_prefix_app in E. split; [|reflexivity].
      intros _. exists [], r. exact E.
    + split; [discriminate|]. intros (pre & post & H).
      destruct pre; [|discriminate]. simpl in H.
      assert (strip_prefix needle [] = Some post) by now apply strip_prefix_app.
      congruence.
  - destruct (strip_prefix needle (c :: hay)) as [r|] eqn:E.
    + apply strip_prefix_app in E. split; [|reflexivity].
      intros _. exists [], r. exact E.
    + rewrite IH. split.
      * intros (pre & post & ->). now exists (c :: pre), post.
      * intros (pre & post & H). destruct pre as [|x pre].
        -- simpl in H.
           assert (strip_prefix needle (c :: hay) = Some post)
             by now apply strip_prefix_app.
           congruence.
        -- injection H as _ ->. now exists pre, post.
Qed.

Section DictFacts.
Context {K V : Type} (eqk : K -> K -> bool).
Hypothesis eqk_spec : forall a b, eqk a b = true <-> a = b.

Lemma eqk_refl (k : K) : eqk k k = true.
Proof. now apply eqk_spec. Qed.

Lemma get_In (d : PyDict.dict) (k : K) (v : V) :
  PyDict.get eqk d k = Some v -> In (k, v) d.
Proof.
  induction d as [|[k' v'] d IH]; simpl; [discriminate|].
  destruct (eqk k' k) eqn:E.
  - apply eqk_spec in E. intros H; injection H as ->. left; congruence.
  - intros H. right. now apply IH.
Qed.

Lemma get_None (d : PyDict.dict (V := V)) (k : K) :
  PyDict.get eqk d k = None <-> ~ In k (PyDict.keys d).
Proof.
  induction d as [|[k' v'] d IH]; simpl; [tauto|].
  destruct (eqk k' k) eqn:E.
  - apply eqk_spec in E. split; [discriminate | intros H; exfalso; apply H; now left].
  - rewrite IH. split.
    + intros H [H1|H1]; [|contradiction]. apply eqk_spec in H1. congruence.
    + tauto.
Qed.

Lemma In_get (d : PyDict.dict) (k : K) (v : V) :
  NoDup (PyDict.keys d) -> In (k, v) d -> PyDict.get eqk d k = Some v.
Proof.
  induction d as [|[k' v'] d IH]; simpl; [tauto|].
  intros ND [H|H].
  - injection H as -> ->. now rewrite eqk_refl.
  - inversion ND as [|? ? Hn ND']; subst.
    destruct (eqk k' k) eqn:E.
    + apply eqk_spec in E. subst k'. exfalso. apply Hn.
      change k with (fst (k, v)). now apply in_map.
    + now apply IH.
Qed.

(** Assigning to a key either appends a new entry or replaces the value of
    the one entry of that key, where it stands. *)
Lemma set_cases (d : PyDict.dict) (k : K) (v : V) :
  (PyDict.get eqk d k = None /\ PyDict.set eqk d k v = d ++ [(k, v)])
  \/ (exists d1 v0 d2, d = d1 ++ (k, v0) :: d2
        /\ PyDict.get eqk d1 k = None
        /\ PyDict.get eqk d k = Some v0
        /\ PyDict.set eqk d k v = d1 ++ (k, v) :: d2).
Proof.
  induction d as [|[k' v'] d IH]; simpl.
  - left. split; reflexivity.
  - destruct (eqk k' k) eqn:E.
    + right. apply eqk_spec in E. subst k'.
      exists [], v', d. simpl. repeat split; reflexivity.
    + destruct IH as [[Hn Hs]|(d1 & v0 & d2 & Hd & Hn & Hg & Hs)].
      * left. split; [exact Hn|]. now rewrite Hs.
      * right. exists ((k', v') :: d1), v0, d2. simpl. rewrite E.
        repeat split; try assumption; [now rewrite Hd | now rewrite Hs].
Qed.

Lemma keys_set (d : PyDict.dict) (k : K) (v : V) :
  PyDict.keys (PyDict.set eqk d k v)
  = if PyDict.mem eqk d k then PyDict.keys d else PyDict.keys d ++ [k].
Proof.
  unfold PyDict.mem, PyDict.keys.
  destruct (set_cases d k v) as [[Hn Hs]|(d1 & v0 & d2 & Hd & Hn & Hg & Hs)].
  - rewrite Hn, Hs, map_app. reflexivity.
  - rewrite Hg, Hs, Hd, !map_app. reflexivity.
Qed.

Lemma get_set_same (d : PyDict.dict) (k : K) (v : V) :
  PyDict.get eqk (PyDict.set eqk d k v) k = Some v.
Proof.
  induction d as [|[k' v'] d IH]; simpl.
  - now rewrite eqk_refl.
  - destruct (eqk k' k) eqn:E; simpl; rewrite E; [reflexivity | exact IH].
Qed.

Lemma get_set_other (d : PyDict.dict) (k k2 : K) (v : V) :
  k <> k2 -> PyDict.get eqk (PyDict.set eqk d k v) k2 = PyDict.get eqk d k2.
Proof.
  intros N. induction d as [|[k' v'] d IH]; simpl.
  - destruct (eqk k k2) eqn:E; [apply eqk_spec in E; contradiction | reflexivity].
  - destruct (eqk k' k) eqn:E; simpl.
    + apply eqk_spec in E. subst k'.
      destruct (eqk k k2) eqn:E2; [apply eqk_spec in E2; contradiction | reflexivity].
    + destruct (eqk k' k2); [reflexivity | exact IH].
Qed.

Lemma NoDup_keys_set (d : PyDict.dict) (k : K) (v : V) :
  NoDup (PyDict.keys d) -> NoDup (PyDict.keys (PyDict.set eqk d k v)).
Proof.
  intros ND. rewrite keys_set. unfold PyDict.mem.
  destruct (PyDict.get eqk d k) eqn:E; [exact ND|].
  apply get_None in E.
  apply Permutation_NoDup with (l := k :: PyDict.keys d).
  - apply Permutation_cons_append.
  - now constructor.
Qed.

End DictFacts.

(** ** The sequence matcher never runs out of nested windows *)

Section MatcherBounds.
Variables a b : str.
Variables alo ahi blo bhi : Z.
Hypothesis window : alo <= ahi.

(** The best block lies inside the window of [a]. *)
Definition inside (bst : Difflib.best) : Prop :=
  0 <= Difflib.bestsize bst /\ alo <= Difflib.besti bst
  /\ Difflib.besti bst + Difflib.bestsize bst <= ahi.

(** No run recorded for the row before [i] is longer than the row is far
    from the start of the window. *)
Definition short_runs (i : Z) (j2len : list (Z * Z)) : Prop :=
  forall j, 0 <= Difflib.j2len_get j2len j <= i - alo.

Lemma row_inside (i : Z) (js : list Z) (j2len newj2len : list (Z * Z))
    (bst : Difflib.best) :
  alo <= i < ahi -> short_runs i j2len -> short_runs (i + 1) newj2len ->
  inside bst ->
  short_runs (i + 1) (fst (Difflib.row blo bhi i js j2len newj2len bst))
  /\ inside (snd (Difflib.row blo bhi i js j2len newj2len bst)).
Proof.
  intros Hi Hold. revert newj2len bst.
  induction js as [|j js IH]; intros newj2len bst Hnew Hin; simpl.
  - split; assumption.
  - destruct (j <? blo); [now apply IH|].
    destruct (bhi <=? j); [split; assumption|].
    apply IH.
    + intros j'. simpl. specialize (Hold (j - 1)). specialize (Hnew j').
      destruct (j =? j'); lia.
    + specialize (Hold (j - 1)).
      destruct (Difflib.bestsize bst <? Difflib.j2len_get j2len (j - 1) + 1);
        [|exact Hin].
      unfold inside; simpl. lia.
Qed.

Lemma rows_inside (n : nat) (i : Z) (j2len : list (Z * Z)) (bst : Difflib.best) :
  alo <= i -> i + Z.of_nat n <= ahi -> short_runs i j2len -> inside bst ->
  inside (Difflib.rows a b blo bhi i n j2len bst).
Proof.
  revert i j2len bst. induction n as [|n IH]; intros i j2len bst Hlo Hhi Hruns Hin.
  - exact Hin.
  - simpl.
    destruct (Difflib.row blo bhi i (Difflib.b2j b (Difflib.item a i)) j2len [] bst)
      as [newj2len bst'] eqn:E.
    assert (H : short_runs (i + 1) newj2len /\ inside bst').
    { pose proof (row_inside i (Difflib.b2j b (Difflib.item a i)) j2len [] bst) as R.
      rewrite E in R. apply R; try assumption; [lia|].
      intros j. simpl. lia. }
    apply IH; try tauto; lia.
Qed.

Lemma extend_left_inside (n : nat) (bst : Difflib.best) :
  inside bst -> inside (Difflib.extend_left a b alo blo n bst).
Proof.
  revert bst. induction n as [|n IH]; intros bst Hin; simpl; [exact Hin|].
  destruct ((alo <? Difflib.besti bst) && (blo <? Difflib.bestj bst)
            && (Difflib.item a (Difflib.besti bst - 1)
                =? Difflib.item b (Difflib.bestj bst - 1))) eqn:E;
    [|exact Hin].
  apply IH. apply andb_true_iff in E as [E _]. apply andb_true_iff in E as [E _].
  apply Z.ltb_lt in E. unfold inside in *; simpl. lia.
Qed.

Lemma extend_right_inside (n : nat) (bst : Difflib.best) :
  inside bst -> inside (Difflib.extend_right a b ahi bhi n bst).
Proof.
  revert bst. induction n as [|n IH]; intros bst Hin; simpl; [exact Hin|].
  destruct ((Difflib.besti bst + Difflib.bestsize bst <? ahi)
            && (Difflib.bestj bst + Difflib.bestsize bst <? bhi)
            && (Difflib.item a (Difflib.besti bst + Difflib.bestsize bst)
                =? Difflib.item b (Difflib.bestj bst + Difflib.bestsize bst))) eqn:E;
    [|exact Hin].
  apply IH. apply andb_true_iff in E as [E _]. apply andb_true_iff in E as [E _].
  apply Z.ltb_lt in E. unfold inside in *; simpl. lia.
Qed.

Lemma find_longest_match_inside :
  inside (Difflib.find_longest_match a b alo ahi blo bhi).
Proof.
  unfold Difflib.find_longest_match.
  apply extend_right_inside, extend_left_inside, rows_inside.
  - lia.
  - rewrite Z2Nat.id; lia.
  - intros j. simpl. lia.
  - unfold inside; simpl. lia.
Qed.

End MatcherBounds.

Lemma matching_size_fuel (a b : str) (fuel : nat) :
  forall alo ahi blo bhi,
    alo <= ahi -> (Z.to_nat (ahi - alo) < fuel)%nat ->
    exists m, Difflib.matching_size a b fuel alo ahi blo bhi = Some m.
Proof.
  induction fuel as [|fuel IH]; intros alo ahi blo bhi Hw Hf; [lia|].
  simpl.
  pose proof (find_longest_match_inside a b alo ahi blo bhi Hw) as (H0 & H1 & H2).
  set (m := Difflib.find_longest_match a b alo ahi blo bhi) in *.
  destruct (Z.eqb_spec (Difflib.bestsize m) 0) as [E|E]; [now exists 0|].
  assert (Hl : exists l,
    (if (alo <? Difflib.besti m) && (blo <? Difflib.bestj m)
     then Difflib.matching_size a b fuel alo (Difflib.besti m) blo (Difflib.bestj m)
     else Some 0) = Some l).
  { destruct ((alo <? Difflib.besti m) && (blo <? Difflib.bestj m));
      [apply IH; lia | now exists 0]. }
  assert (Hr : exists r,
    (if (Difflib.besti m + Difflib.bestsize m <? ahi)
        && (Difflib.bestj m + Difflib.bestsize m <? bhi)
     then Difflib.matching_size a b fuel (Difflib.besti m + Difflib.bestsize m) ahi
            (Difflib.bestj m + Difflib.bestsize m) bhi
     else Some 0) = Some r).
  { destruct ((Difflib.besti m + Difflib.bestsize m <? ahi)
              && (Difflib.bestj m + Difflib.bestsize m <? bhi));
      [apply IH; lia | now exists 0]. }
  destruct Hl as [l ->], Hr as [r ->]. now eexists.
Qed.

(** The number of nested windows [matches] allows is always enough: the
    count it returns is the one the library computes, never the value kept
    for the case that cannot occur. *)
Lemma matches_fuel_enough (a b : str) :
  Difflib.matching_size a b (S (length a)) 0 (Difflib.len a) 0 (Difflib.len b)
  = Some (Difflib.matches a b).
Proof.
  unfold Difflib.matches.
  destruct (matching_size_fuel a b (S (length a)) 0 (Difflib.len a) 0 (Difflib.len b))
    as [m ->]; unfold Difflib.len; try lia; reflexivity.
Qed.

(** ** C1: the tier-slide shorthand of [extract_points_optimized] *)

(** C1, at its own example: with no custom pattern the program does not
    evaluate the text 2顺档5+10元 as 5 - 2 + 10 = 13. The generic pattern is
    tried first and all its parts but the digits are optional, so it stops
    at the leading 2 and the program returns 2. The loop over the
    tier-slide patterns, which is written to give B - A + C and would give
    13 on this text, is not reached. *)
Theorem extract_points_shorthand_shadowed :
  extract_points_optimized (utf8 "2顺档5+10元") None = Return (Some 2)
  /\ slide_points (tl _POINTS_PATTERNS) (utf8 "2顺档5+10元") = Some (5 - 2 + 10).
Proof. split; vm_compute; reflexivity. Qed.

(** ** C8: the phonetic similarity *)

(** [lazy_pinyin] on a text with no Han character: the text is kept. *)
Definition keep_text (s : str) : list str := [s].

(** C8, counterexample: the similarity of "tide" to "diet" is 2/8, that of
    "diet" to "tide" is 4/8. The sequence matcher looks for the longest
    block of its first text and takes the earliest one; which blocks are
    left on either side depends on which text comes first. *)
Lemma pinyin_similarity_not_symmetric :
  ~ (pinyin_similarity keep_text (utf8 "tide") (utf8 "diet")
     == pinyin_similarity keep_text (utf8 "diet") (utf8 "tide"))%Q.
Proof. vm_compute. discriminate. Qed.

(** C8, amended: the similarity is 0 whenever either text is empty, in
    either order of the arguments and whatever the transliteration; only on
    such pairs is it known to be symmetric. *)
Theorem pinyin_similarity_empty (lazy_pinyin : str -> list str) (s : str) :
  pinyin_similarity lazy_pinyin s [] = 0%Q
  /\ pinyin_similarity lazy_pinyin [] s = 0%Q
  /\ (pinyin_similarity lazy_pinyin s [] == pinyin_similarity lazy_pinyin [] s)%Q.
Proof.
  unfold pinyin_similarity. simpl. rewrite orb_true_r.
  repeat split; reflexivity.
Qed.

(** ** What a match of the repetition and of the count patterns tells *)

Lemma rep_some {A : Type} (p : char -> bool) (greedy : bool) (s : str) :
  forall lo hi pos (k : nat -> str -> option A) a,
    rep p lo hi greedy pos s k = Some a ->
    exists n, (lo <= n <= length s)%nat
              /\ forallb p (firstn n s) = true
              /\ k (pos + n)%nat (skipn n s) = Some a.
Proof.
  induction s as [|x s IH]; intros lo hi pos k a H; simpl in H.
  - destruct lo; [|discriminate]. exists O. simpl.
    rewrite Nat.add_0_r. repeat split; auto.
  - assert (Stop : match lo with O => k pos (x :: s) | S _ => None end = Some a ->
                   exists n, (lo <= n <= length (x :: s))%nat
                             /\ forallb p (firstn n (x :: s)) = true
                             /\ k (pos + n)%nat (skipn n (x :: s)) = Some a).
    { intros Hs. destruct lo; [|discriminate]. exists O. simpl.
      rewrite Nat.add_0_r. repeat split; auto. lia. }
    assert (More : rep p (pred lo) (dec_hi hi) greedy (S pos) s k = Some a ->
                   p x = true ->
                   exists n, (lo <= n <= length (x :: s))%nat
                             /\ forallb p (firstn n (x :: s)) = true
                             /\ k (pos + n)%nat (skipn n (x :: s)) = Some a).
    { intros Hm Hp. apply IH in Hm as (n & Hn & Hall & Hk).
      exists (S n). simpl. rewrite Hp, Hall. simpl.
      replace (pos + S n)%nat with (S pos + n)%nat by lia.
      repeat split; auto; lia. }
    destruct (p x) eqn:Hp; simpl in H; [|now apply Stop].
    destruct (more_allowed hi); [|now apply Stop].
    destruct greedy.
    + destruct (rep p (pred lo) (dec_hi hi) true (S pos) s k) as [a'|] eqn:E.
      * injection H as <-. now apply More.
      * now apply Stop.
    + destruct (match lo with O => k pos (x :: s) | S _ => None end) as [a'|] eqn:E.
      * injection H as <-. now apply Stop.
      * now apply More.
Qed.

Lemma search_from_some (r : regex) (s : str) :
  forall pos m, search_from r pos s = Some m ->
    exists pre rest, s = pre ++ rest
                     /\ match_at r (pos + length pre)%nat rest = Some m.
Proof.
  induction s as [|x s IH]; intros pos m H; simpl in H.
  - exists [], []. simpl. rewrite Nat.add_0_r.
    destruct (match_at r pos []); [auto | discriminate].
  - destruct (match_at r pos (x :: s)) as [m'|] eqn:E.
    + injection H as <-. exists [], (x :: s). simpl. now rewrite Nat.add_0_r.
    + apply IH in H as (pre & rest & -> & Hm).
      exists (x :: pre), rest. simpl. split; [reflexivity|].
      now replace (pos + S (length pre))%nat with (S pos + length pre)%nat by lia.
Qed.

Definition hu : str := utf8 "户".

(** The text a match of [count_group], [\s*] and 户 has gone through. *)
Definition counted (g : str) : Prop :=
  (g <> [] /\ forallb isdecimal g = true)
  \/ (exists c, g = [c] /\ in_set count_class c = true).

Lemma count_prefix_some {A : Type} (pos : nat) (s : str)
    (k : nat -> str -> caps -> option A) (a : A) :
  mt count_group pos s []
     (fun p1 s1 c1 =>
        mt spaces p1 s1 c1 (fun p2 s2 c2 => mt (Lit hu) p2 s2 c2 k)) = Some a ->
  exists g ws post p',
    s = g ++ ws ++ hu ++ post /\ counted g /\ forallb isspace ws = true
    /\ k p' post [(1%nat, g)] = Some a.
Proof.
  intros H.
  assert (Tail : forall p1 s1 c1,
    mt spaces p1 s1 c1 (fun p2 s2 c2 => mt (Lit hu) p2 s2 c2 k) = Some a ->
    exists ws post p', s1 = ws ++ hu ++ post /\ forallb isspace ws = true
                       /\ k p' post c1 = Some a).
  { intros p1 s1 c1 Ht. unfold spaces in Ht. cbn [mt] in Ht.
    apply rep_some in Ht as (n & _ & Hws & Ht).
    destruct (strip_prefix hu (skipn n s1)) as [post|] eqn:E; [|discriminate].
    apply strip_prefix_app in E.
    exists (firstn n s1), post. eexists. repeat split; eauto.
    rewrite <- E. symmetry. apply firstn_skipn. }
  unfold count_group, digits1 in H. cbn [mt] in H.
  match type of H with
  | match ?d with Some _ => _ | None => _ end = _ => destruct d as [a'|] eqn:Ed
  end.
  - injection H as <-. apply rep_some in Ed as (n & Hn & Hd & Hk).
    apply Tail in Hk as (ws & post & p' & Hs & Hws & Hk).
    replace (pos + n - pos)%nat with n in Hk by lia.
    exists (firstn n s), ws, post, p'. repeat split; auto.
    + rewrite <- Hs. symmetry. apply firstn_skipn.
    + left. split; [|exact Hd]. destruct s; simpl in Hn; [lia|].
      destruct n; [lia | discriminate].
  - destruct s as [|x s]; [discriminate|].
    destruct (in_set count_class x) eqn:Hx; [|discriminate].
    apply Tail in H as (ws & post & p' & Hs & Hws & Hk).
    replace (S pos - pos)%nat with 1%nat in Hk by lia. simpl in Hk.
    exists [x], ws, post, p'. repeat split; auto.
    + simpl. now rewrite Hs.
    + right. now exists x.
Qed.

Lemma count_pattern_some (r : regex) (text : str) (m : match_obj) :
  In r count_patterns -> search r text = Some m ->
  exists pre g ws post,
    text = pre ++ g ++ ws ++ hu ++ post /\ counted g
    /\ forallb isspace ws = true /\ group (m_caps m) 1 = Some g.
Proof.
  intros Hr Hs. apply search_from_some in Hs as (pre & rest & -> & Hm).
  unfold match_at in Hm.
  destruct Hr as [<-|[<-|[]]].
  - pose proof (count_prefix_some (0 + length pre) rest
      (fun e _ c => Some {| m_start := (0 + length pre)%nat; m_end := e; m_caps := c |})
      m Hm) as (g & ws & post & p' & -> & Hg & Hws & Hk).
    injection Hk as <-. exists pre, g, ws, post. repeat split; auto.
  - pose proof (count_prefix_some (0 + length pre) rest
      (fun p s c => mt (Cat dot_star (lit "接入号")) p s c
         (fun e _ c => Some {| m_start := (0 + length pre)%nat; m_end := e; m_caps := c |}))
      m Hm) as (g & ws & post & p' & -> & Hg & Hws & Hk).
    unfold dot_star, lit in Hk. cbn [mt] in Hk.
    apply rep_some in Hk as (n & _ & _ & Hk).
    destruct (strip_prefix (utf8 "接入号") (skipn n post)); [|discriminate].
    injection Hk as <-. exists pre, g, ws, post. repeat split; auto.
Qed.

(** Removing the spaces of a text. *)
Definition not_space (c : char) : bool := negb (c =? 32).

Lemma replace_spaces (s : str) :
  replace (utf8 " ") [] s = filter not_space s.
Proof.
  unfold replace. change (utf8 " ") with [32].
  induction s as [|c s IH]; [reflexivity|].
  cbn [replace_aux strip_prefix filter]. unfold not_space at 1.
  rewrite Z.eqb_sym.
  destruct (c =? 32); simpl; now rewrite IH.
Qed.

Lemma filter_app_inv {T : Type} (f : T -> bool) (l l1 l2 : list T) :
  filter f l = l1 ++ l2 ->
  exists m1 m2, l = m1 ++ m2 /\ filter f m1 = l1 /\ filter f m2 = l2.
Proof.
  revert l1. induction l as [|x l IH]; intros l1 H; simpl in H.
  - symmetry in H. apply app_eq_nil in H as [-> ->]. now exists [], [].
  - destruct (f x) eqn:Hx.
    + destruct l1 as [|y l1].
      * exists [], (x :: l). simpl. rewrite Hx. auto.
      * injection H as <- H. apply IH in H as (m1 & m2 & -> & <- & <-).
        exists (x :: m1), m2. simpl. rewrite Hx. auto.
    + apply IH in H as (m1 & m2 & -> & <- & <-).
      exists (x :: m1), m2. simpl. rewrite Hx. auto.
Qed.

Lemma filter_cons_inv {T : Type} (f : T -> bool) (l : list T) (x : T) (r : list T) :
  filter f l = x :: r ->
  exists junk l', l = junk ++ x :: l' /\ filter f junk = [] /\ filter f l' = r.
Proof.
  induction l as [|y l IH]; intros H; simpl in H; [discriminate|].
  destruct (f y) eqn:Hy.
  - injection H as -> <-. now exists [], l.
  - apply IH in H as (junk & l' & -> & Hj & <-).
    exists (y :: junk), l'. simpl. rewrite Hy. auto.
Qed.

Lemma spaces_around (m ws : str) :
  filter not_space m = ws -> forallb isspace ws = true ->
  forallb isspace m = true.
Proof.
  revert ws. induction m as [|c m IH]; intros ws H Hws; [reflexivity|].
  simpl in *. unfold not_space in H at 1.
  destruct (Z.eqb_spec c 32) as [->|N]; simpl in H.
  - rewrite (IH ws); auto.
  - subst ws. simpl in Hws. apply andb_true_iff in Hws as [-> Hws].
    now rewrite (IH _ eq_refl Hws).
Qed.

(** ** C9: the count a line states *)

(** A character [CHINESE_NUM_DICT] gives a value to. *)
Definition numeral (c : char) : bool :=
  PyDict.mem PyStr.eqb CHINESE_NUM_DICT [c].

(** What the specification calls a pattern "<digits-or-Chinese-numeral> 户"
    in a text: a decimal digit or a numeral of the table, then 户, with at
    most white space between the two. *)
Definition count_marker (text : str) : Prop :=
  exists pre d ws post,
    text = pre ++ d :: ws ++ hu ++ post
    /\ isdecimal d || numeral d = true
    /\ forallb isspace ws = true.

Lemma marker_without_spaces (text : str) :
  count_marker (filter not_space text) -> count_marker text.
Proof.
  intros (pre & d & ws & post & H & Hd & Hws).
  apply filter_app_inv in H as (m1 & m2 & -> & _ & H).
  apply filter_cons_inv in H as (j1 & m3 & -> & _ & H).
  apply filter_app_inv in H as (m4 & m5 & -> & H4 & H).
  apply filter_cons_inv in H as (j2 & m6 & -> & Hj2 & _).
  exists (m1 ++ j1), d, (m4 ++ j2), m6. split; [|split; [exact Hd|]].
  - now rewrite <- !app_assoc.
  - rewrite forallb_app, (spaces_around m4 ws H4 Hws).
    now rewrite (spaces_around j2 [] Hj2 eq_refl).
Qed.

Lemma count_class_members (c : char) :
  in_set count_class c = true -> numeral c = true \/ c = 124.
Proof.
  unfold in_set, char_in. intros H. apply existsb_exists in H as (x & Hin & Hx).
  apply Z.eqb_eq in Hx. subst x.
  vm_compute in Hin.
  repeat (destruct Hin as [<-|Hin]; [vm_compute; auto|]). contradiction.
Qed.

Lemma decimal_last (g : str) :
  g <> [] -> forallb isdecimal g = true ->
  exists g' d, g = g' ++ [d] /\ isdecimal d = true.
Proof.
  intros Hne Hall. destruct (exists_last Hne) as (g' & d & ->).
  exists g', d. split; [reflexivity|].
  rewrite forallb_app in Hall. apply andb_true_iff in Hall as [_ Hd].
  simpl in Hd. now rewrite andb_true_r in Hd.
Qed.

Lemma first_match_some (patterns : list regex) (text : str) (m : match_obj) :
  first_match patterns text = Some m ->
  exists r, In r patterns /\ search r text = Some m.
Proof.
  induction patterns as [|r rest IH]; simpl; [discriminate|].
  destruct (search r text) as [m'|] eqn:E.
  - intros H; injection H as <-. exists r. auto.
  - intros H. apply IH in H as (r' & Hin & Hs). exists r'. auto.
Qed.

(** C9: the two numerals of the specification's examples are read through
    the table, a text with no count gives the default, and so does every
    text in which no digit or numeral stands before 户; on all of them the
    function returns, no conversion being tried. *)
Theorem extract_number_counts :
  extract_number (utf8 "三户接入号") = Some 3
  /\ extract_number (utf8 "拾户") = Some 10
  /\ extract_number (utf8 "处理了") = Some 1
  /\ forall text, ~ count_marker text -> extract_number text = Some 1.
Proof.
  split; [vm_compute; reflexivity|].
  split; [vm_compute; reflexivity|].
  split; [vm_compute; reflexivity|].
  intros text Hno. unfold extract_number.
  destruct (negb (truthy text)); [reflexivity|].
  rewrite replace_spaces.
  destruct (first_match count_patterns (filter not_space text)) as [m|] eqn:E;
    [|reflexivity].
  apply first_match_some in E as (r & Hr & Hs).
  apply count_pattern_some in Hs as (pre & g & ws & post & Ht & Hg & Hws & ->); [|exact Hr].
  destruct Hg as [[Hne Hall]|(c & -> & Hc)].
  - exfalso. apply Hno, marker_without_spaces.
    destruct (decimal_last g Hne Hall) as (g' & d & -> & Hd).
    exists (pre ++ g'), d, ws, post. rewrite Ht, Hd, <- !app_assoc. auto.
  - apply count_class_members in Hc as [Hc| ->]; [|reflexivity].
    exfalso. apply Hno, marker_without_spaces.
    exists pre, c, ws, post. rewrite Ht, Hc, orb_true_r. auto.
Qed.

(** The hypothesis of C9 at the text of the specification's example. *)
Lemma extract_number_counts_witness :
  ~ count_marker (utf8 "处理了") /\ extract_number (utf8 "处理了") = Some 1.
Proof.
  assert (H : ~ count_marker (utf8 "处理了")).
  { intros (pre & d & ws & post & H & _).
    assert (Hin : In 25143 (utf8 "处理了")).
    { rewrite H. apply in_or_app. right. right. apply in_or_app. right.
      now left. }
    vm_compute in Hin. intuition discriminate. }
  split; [exact H|].
  exact (proj2 (proj2 (proj2 extract_number_counts)) _ H).
Defined.

(** ** C4: exclusion keywords come first *)

Import ReportProcessor.

Lemma any_in_true (text : str) (keywords : list str) (kw : str) :
  In kw keywords -> contains kw text = true -> any_in text keywords = true.
Proof.
  intros Hin Hc. unfold any_in. apply existsb_exists. now exists kw.
Qed.

Lemma match_category_excluded (business_config : business_categories)
    (c : category) (config : rule) (line : str) (cats : list category) :
  _get_config_keywords business_config c = Some config ->
  any_in line (exclude_keywords config) = true ->
  match_category business_config cats line <> Some c.
Proof.
  intros Hcfg Hex. induction cats as [|c' cats IH]; simpl; [discriminate|].
  destruct (_get_config_keywords business_config c') as [config'|] eqn:E.
  - destruct (nonempty (exclude_keywords config')
              && _should_exclude line (exclude_keywords config')) eqn:X;
      [exact IH|].
    destruct (nonempty (keywords config')
              && _match_keywords line (keywords config')); [|exact IH].
    intros H. injection H as ->. rewrite Hcfg in E. injection E as <-.
    unfold _should_exclude in X. rewrite Hex, andb_true_r in X.
    destruct (exclude_keywords config); [discriminate Hex | discriminate X].
  - exact IH.
Qed.

(** C4: a line that contains an exclusion keyword of a configured category
    is never counted in that category, whatever inclusion keywords it
    contains; so the line 张三 高危复机 1户 is never counted in a category
    that includes 复机 and excludes 高危复机. *)
Theorem exclusion_precedence (business_config : business_categories)
    (c : category) (config : rule) :
  _get_config_keywords business_config c = Some config ->
  (forall line kw,
     In kw (exclude_keywords config) -> contains kw line = true ->
     match_category business_config _category_mapping line <> Some c)
  /\ (keywords config = [utf8 "复机"] ->
      exclude_keywords config = [utf8 "高危复机"] ->
      match_category business_config _category_mapping (utf8 "张三 高危复机 1户")
      <> Some c).
Proof.
  intros Hcfg. split.
  - intros line kw Hin Hc.
    apply match_category_excluded with (config := config); [exact Hcfg|].
    now apply any_in_true with (kw := kw).
  - intros _ Hex.
    apply match_category_excluded with (config := config); [exact Hcfg|].
    rewrite Hex. vm_compute. reflexivity.
Qed.

(** A configuration in which 当月复机 includes 复机 and excludes 高危复机,
    and 高危复机 has its own category. *)
Definition recovery_config : business_categories :=
  [ (utf8 "current_month_recovery",
     {| keywords := [utf8 "复机"]; exclude_keywords := [utf8 "高危复机"] |});
    (utf8 "high_risk_recovery",
     {| keywords := [utf8 "高危复机"]; exclude_keywords := [] |}) ].

Lemma exclusion_precedence_witness :
  match_category recovery_config _category_mapping (utf8 "张三 高危复机 1户")
  <> Some current_month_recovery
  /\ match_category recovery_config _category_mapping (utf8 "张三 高危复机 1户")
     = Some high_risk_recovery.
Proof.
  split.
  - exact (proj2 (exclusion_precedence recovery_config current_month_recovery
                    {| keywords := [utf8 "复机"];
                       exclude_keywords := [utf8 "高危复机"] |} eq_refl)
                 eq_refl eq_refl).
  - vm_compute. reflexivity.
Defined.

(** ** Stripping twice *)

Definition head_kept (s : str) : Prop :=
  match s with [] => True | c :: _ => isspace c = false end.

Lemma lstrip_head_kept (s : str) : head_kept (lstrip s).
Proof.
  induction s as [|c s IH]; simpl; [exact I|].
  destruct (isspace c) eqn:E; [exact IH | exact E].
Qed.

Lemma lstrip_fixed (s : str) : head_kept s -> lstrip s = s.
Proof. destruct s as [|c s]; simpl; [reflexivity | now intros ->]. Qed.

Lemma lstrip_suffix (s : str) : exists w, s = w ++ lstrip s.
Proof.
  induction s as [|c s [w IH]]; simpl; [now exists []|].
  destruct (isspace c); [|now exists []].
  exists (c :: w). simpl. now rewrite <- IH.
Qed.

Lemma strip_ends_kept (s : str) : head_kept (strip s) /\ head_kept (rev (strip s)).
Proof.
  unfold strip. rewrite rev_involutive. split; [|apply lstrip_head_kept].
  pose proof (lstrip_head_kept s) as Ht.
  destruct (lstrip_suffix (rev (lstrip s))) as [w Hw].
  set (u := lstrip (rev (lstrip s))) in *.
  assert (E : lstrip s = rev u ++ rev w).
  { rewrite <- rev_app_distr, <- Hw. now rewrite rev_involutive. }
  destruct (rev u) as [|c r]; [exact I|].
  rewrite E in Ht. exact Ht.
Qed.

Lemma strip_idempotent (s : str) : strip (strip s) = strip s.
Proof.
  destruct (strip_ends_kept s) as [H1 H2].
  unfold strip at 1. rewrite (lstrip_fixed _ H1), (lstrip_fixed _ H2).
  apply rev_involutive.
Qed.

(** ** The manager pipeline, line by line *)

Lemma set_mem_In (x : str) (s : list str) : set_mem x s = true <-> In x s.
Proof.
  unfold set_mem. rewrite existsb_exists. split.
  - intros (y & Hy & E). apply str_eqb_eq in E. now subst.
  - intros H. exists x. split; [exact H | apply str_eqb_refl].
Qed.

Lemma set_add_In (x y : str) (s : list str) :
  In y (set_add x s) <-> y = x \/ In y s.
Proof.
  unfold set_add. destruct (set_mem x s) eqn:E.
  - apply set_mem_In in E. split; [auto | intros [->|H]; auto].
  - rewrite in_app_iff. simpl. intuition.
Qed.

Section Pipeline.
Variable lazy_pinyin : str -> list str.
Variable branch_managers : roster.
Variable business_config : business_categories.

Let extract := _extract_branch_and_manager lazy_pinyin branch_managers.
Let classify := match_category business_config _category_mapping.
Let step := process_line lazy_pinyin branch_managers business_config.
Let init_data := _init_manager_data branch_managers.

(** The managers the roster gives a branch. *)
Definition managers_of (branch : str) : list str :=
  match PyDict.get PyStr.eqb branch_managers branch with
  | Some l => l
  | None => []
  end.

Lemma first_pair_In (xs ys : list str) (test : str -> str -> bool) (x : str) :
  first_pair xs ys test = Some x -> In x xs.
Proof. unfold first_pair. intros H. now apply find_some in H. Qed.

Lemma find_manager_In (branch text manager : str) :
  find_manager lazy_pinyin branch text branch_managers = Some manager ->
  In manager (managers_of branch).
Proof.
  unfold find_manager, managers_of.
  set (managers := match PyDict.get PyStr.eqb branch_managers branch with
                   | Some l => l | None => [] end).
  destruct (find _ managers) as [m|] eqn:E1.
  { intros H; injection H as <-. now apply find_some in E1. }
  destruct (first_pair managers _ PyStr.eqb) as [m|] eqn:E2.
  { intros H; injection H as <-. now apply first_pair_In in E2. }
  match goal with
  | |- match ?f with Some _ => _ | None => _ end = _ -> _ =>
    destruct f as [m|] eqn:E3
  end.
  { intros H; injection H as <-. now apply first_pair_In in E3. }
  apply first_pair_In.
Qed.

Lemma branch_pass_In (name : str -> str) (found : str -> str -> bool)
    (branches : list str) (line b m rem : str) :
  branch_pass lazy_pinyin branch_managers name found branches line = Some (b, m, rem) ->
  In b branches /\ In m (managers_of b) /\ truthy m = true.
Proof.
  induction branches as [|branch rest IH]; simpl; [discriminate|].
  destruct (found branch line); [|intros H; apply IH in H; tauto].
  destruct (find_manager lazy_pinyin branch _ branch_managers) as [manager|] eqn:E;
    [|intros H; apply IH in H; tauto].
  destruct (truthy manager) eqn:T; [|intros H; apply IH in H; tauto].
  intros H; injection H as <- <- _.
  apply find_manager_In in E. auto.
Qed.

Lemma extract_In (line b m rem : str) :
  extract line = Some (b, m, rem) ->
  In b (PyDict.keys branch_managers) /\ In m (managers_of b) /\ truthy m = true.
Proof.
  unfold extract, _extract_branch_and_manager.
  destruct (branch_pass _ _ (fun b0 => b0) _ _ line) as [r|] eqn:E1.
  { intros H; injection H as ->. now apply branch_pass_In in E1. }
  destruct (branch_pass _ _ branch_short (fun b0 l => contains (branch_short b0) l) _ line)
    as [r|] eqn:E2.
  { intros H; injection H as ->. now apply branch_pass_In in E2. }
  apply branch_pass_In.
Qed.

(** A pair of the roster: a manager listed under a branch. *)
Definition in_roster (b m : str) : Prop :=
  exists ms, In (b, ms) branch_managers /\ In m ms.

Lemma managers_of_in_roster (b m : str) : In m (managers_of b) -> in_roster b m.
Proof.
  unfold managers_of.
  destruct (PyDict.get PyStr.eqb branch_managers b) as [ms|] eqn:E; [|contradiction].
  intros H. exists ms. split; [|exact H].
  apply get_In with (eqk := PyStr.eqb); [apply str_eqb_eq | exact E].
Qed.

Lemma mem_set (d : PyDict.dict (K := key) (V := row)) (k k' : key) (v : row) :
  PyDict.mem key_eqb (PyDict.set key_eqb d k v) k'
  = key_eqb k k' || PyDict.mem key_eqb d k'.
Proof.
  unfold PyDict.mem.
  destruct (key_eqb k k') eqn:E.
  - apply key_eqb_eq in E. subst k'.
    now rewrite (get_set_same key_eqb key_eqb_eq).
  - rewrite (get_set_other key_eqb key_eqb_eq); [reflexivity|].
    intros ->. rewrite (proj2 (key_eqb_eq _ _) eq_refl) in E. discriminate.
Qed.

Lemma seed_managers_mem (b : str) (ms : list str) (d : PyDict.dict) (k : key) :
  PyDict.mem key_eqb
    (fold_left (fun d' manager =>
                  PyDict.set key_eqb d' (b, manager) (zero_row b manager)) ms d) k
  = existsb (fun m => key_eqb (b, m) k) ms || PyDict.mem key_eqb d k.
Proof.
  revert d. induction ms as [|m ms IH]; intros d; simpl; [reflexivity|].
  rewrite IH, mem_set.
  destruct (key_eqb (b, m) k), (existsb _ ms), (PyDict.mem key_eqb d k); reflexivity.
Qed.

Lemma seed_mem (items : roster) (d : PyDict.dict) (k : key) :
  PyDict.mem key_eqb
    (fold_left
       (fun d item =>
          fold_left (fun d' manager =>
                       PyDict.set key_eqb d' (fst item, manager)
                                  (zero_row (fst item) manager))
                    (snd item) d)
       items d) k
  = existsb (fun item => existsb (fun m => key_eqb (fst item, m) k) (snd item)) items
    || PyDict.mem key_eqb d k.
Proof.
  revert d. induction items as [|[b ms] items IH]; intros d; simpl; [reflexivity|].
  rewrite IH, seed_managers_mem.
  destruct (existsb _ ms), (existsb _ items), (PyDict.mem key_eqb d k); reflexivity.
Qed.

(** [_init_manager_data] has a row for a pair exactly when the roster
    lists it. *)
Lemma init_mem (b m : str) :
  PyDict.mem key_eqb init_data (b, m) = true <-> in_roster b m.
Proof.
  unfold init_data, _init_manager_data. rewrite seed_mem. simpl. rewrite orb_false_r.
  rewrite existsb_exists. split.
  - intros ([b' ms] & Hin & H). apply existsb_exists in H as (m' & Hm & E).
    apply key_eqb_eq in E. injection E as -> ->. now exists ms.
  - intros (ms & Hin & Hm). exists (b, ms). split; [exact Hin|].
    apply existsb_exists. exists m. split; [exact Hm|]. now apply key_eqb_eq.
Qed.

(** The normaliser's verdict on a line: blank, without a digit, or a title. *)
Definition discarded (line : str) : bool :=
  let l := strip line in
  negb (truthy l) || negb (has_digit l) || _is_title_line l.

(** The counter a stripped line is counted in: the pair it resolves to and
    its category. *)
Definition resolve (line : str) : option (key * category) :=
  match extract line with
  | Some (branch, manager, _) =>
    if truthy branch then
      match classify line with
      | Some c => Some ((branch, manager), c)
      | None => None
      end
    else None
  | None => None
  end.

Definition aggregated (line : str) : bool :=
  match resolve (strip line) with Some _ => true | None => false end.

(** A line that is kept and cannot be counted. *)
Definition excepted (line : str) : bool :=
  negb (discarded line) && negb (aggregated line).

Definition mark (line : str) (all : list str) : list str :=
  if contains (utf8 "支局") line || contains (utf8 "分局") line
  then set_add line all else all.

(** What [process_line] does, by the verdict on the line. *)
Definition account (st : state) (line0 : str) : option state :=
  let line := strip line0 in
  if discarded line0 then Some st
  else
    match resolve line with
    | Some (k, c) =>
      match quantity c line with
      | Some n =>
        Some {| manager_data := add_count (manager_data st) k c n;
                exception_records := exception_records st;
                processed_lines := set_add line (processed_lines st);
                all_lines := mark line (all_lines st) |}
      | None => None
      end
    | None =>
      Some {| manager_data := manager_data st;
              exception_records := exception_records st ++ [line];
              processed_lines := processed_lines st;
              all_lines := mark line (all_lines st) |}
    end.

(** The rows of the state are those of the roster. *)
Definition seeded (st : state) : Prop :=
  forall k, PyDict.mem key_eqb (manager_data st) k = PyDict.mem key_eqb init_data k.

Lemma add_count_mem (d : PyDict.dict) (k : key) (c : category) (n : Z) (k' : key) :
  PyDict.mem key_eqb (add_count d k c n) k' = PyDict.mem key_eqb d k'.
Proof.
  unfold add_count. destruct (PyDict.get key_eqb d k) as [r|] eqn:E; [|reflexivity].
  rewrite mem_set. destruct (key_eqb k k') eqn:Ek; [|reflexivity].
  apply key_eqb_eq in Ek. subst k'. unfold PyDict.mem. now rewrite E.
Qed.

Lemma process_line_account (st : state) (line : str) :
  seeded st -> step st line = account st line.
Proof.
  intros Hseed. unfold step, process_line, account, discarded, resolve.
  fold extract classify. cbv zeta.
  set (l := strip line).
  destruct (truthy l); simpl; [|reflexivity].
  destruct (has_digit l); simpl; [|reflexivity].
  destruct (_is_title_line l); [reflexivity|].
  unfold mark.
  destruct st as [d exc proc all]. simpl.
  destruct (extract l) as [[[b m] rem]|] eqn:E.
  - destruct (truthy b) eqn:Tb; simpl.
    + apply extract_In in E as (_ & Hm & _).
      apply managers_of_in_roster, init_mem in Hm.
      assert (Hmem : forall all', PyDict.mem key_eqb
                (manager_data (if contains (utf8 "支局") l || contains (utf8 "分局") l
                   then {| manager_data := d; exception_records := exc;
                           processed_lines := proc; all_lines := all' |}
                   else {| manager_data := d; exception_records := exc;
                           processed_lines := proc; all_lines := all |})) (b, m) = true).
      { intros all'. replace (manager_data _) with d.
        - rewrite <- Hm. apply (Hseed (b, m)).
        - now destruct (contains (utf8 "支局") l || contains (utf8 "分局") l). }
      rewrite Hmem. simpl.
      destruct (classify l) as [c|]; [destruct (quantity c l)|];
        now destruct (contains (utf8 "支局") l || contains (utf8 "分局") l).
    + now destruct (contains (utf8 "支局") l || contains (utf8 "分局") l).
  - now destruct (contains (utf8 "支局") l || contains (utf8 "分局") l).
Qed.

Lemma account_seeded (st st' : state) (line : str) :
  seeded st -> account st line = Some st' -> seeded st'.
Proof.
  intros H. unfold account.
  destruct (discarded line); [intros E; injection E as <-; exact H|].
  destruct (resolve (strip line)) as [[k0 c]|].
  - destruct (quantity c (strip line)) as [n|]; [|discriminate].
    intros E; injection E as <-. intros k. simpl. rewrite add_count_mem. apply H.
  - intros E; injection E as <-. exact H.
Qed.

Lemma process_all_account (lines : list str) (st : state) :
  seeded st ->
  process_all_data lazy_pinyin branch_managers business_config st lines
  = for_each account lines st.
Proof.
  unfold process_all_data. revert st.
  induction lines as [|l lines IH]; intros st H; simpl; [reflexivity|].
  fold step. rewrite (process_line_account st l H).
  destruct (account st l) as [st'|] eqn:E; [|reflexivity].
  apply IH. exact (account_seeded st st' l H E).
Qed.

Lemma init_seeded : seeded (init branch_managers).
Proof. intros k. reflexivity. Qed.

(** The counters after a line that is counted; [None] when the count of
    the line cannot be read. *)
Definition count_step (d : PyDict.dict (K := key) (V := row)) (line : str)
  : option PyDict.dict :=
  match resolve (strip line) with
  | Some (k, c) =>
    match quantity c (strip line) with
    | Some n => Some (add_count d k c n)
    | None => None
    end
  | None => Some d
  end.

Definition counted_line (line : str) : bool :=
  negb (discarded line) && aggregated line.

Lemma account_discarded (st : state) (l : str) :
  discarded l = true -> account st l = Some st.
Proof. unfold account. now intros ->. Qed.

Lemma account_counted (st : state) (l : str) (k : key) (c : category) :
  discarded l = false -> resolve (strip l) = Some (k, c) ->
  account st l
  = match quantity c (strip l) with
    | Some n =>
      Some {| manager_data := add_count (manager_data st) k c n;
              exception_records := exception_records st;
              processed_lines := set_add (strip l) (processed_lines st);
              all_lines := mark (strip l) (all_lines st) |}
    | None => None
    end.
Proof. unfold account. now intros -> ->. Qed.

Lemma account_excepted (st : state) (l : str) :
  discarded l = false -> resolve (strip l) = None ->
  account st l
  = Some {| manager_data := manager_data st;
            exception_records := exception_records st ++ [strip l];
            processed_lines := processed_lines st;
            all_lines := mark (strip l) (all_lines st) |}.
Proof. unfold account. now intros -> ->. Qed.

(** The loop over the lines raises exactly when the counters cannot be
    brought up to date, and otherwise ends with these counters. *)
Lemma fold_account_data (lines : list str) (st : state) :
  option_map manager_data (for_each account lines st)
  = for_each count_step (filter counted_line lines) (manager_data st).
Proof.
  revert st. induction lines as [|l lines IH]; intros st; [reflexivity|].
  cbn [for_each filter]. unfold counted_line at 1, aggregated.
  destruct (discarded l) eqn:D; cbn [negb andb].
  - rewrite account_discarded by exact D. apply IH.
  - destruct (resolve (strip l)) as [[k c]|] eqn:R.
    + rewrite (account_counted st l k c D R). cbn [for_each].
      unfold count_step at 1. rewrite R.
      destruct (quantity c (strip l)) as [n|]; [|reflexivity].
      rewrite IH. reflexivity.
    + rewrite (account_excepted st l D R). rewrite IH. reflexivity.
Qed.

Lemma fold_account_exceptions (lines : list str) (st st' : state) :
  for_each account lines st = Some st' ->
  exception_records st' = exception_records st ++ map strip (filter excepted lines).
Proof.
  revert st. induction lines as [|l lines IH]; intros st; cbn [for_each filter].
  - intros E; injection E as <-. simpl. now rewrite app_nil_r.
  - unfold excepted at 1, aggregated.
    destruct (discarded l) eqn:D; cbn [negb andb].
    + rewrite account_discarded by exact D. apply IH.
    + destruct (resolve (strip l)) as [[k c]|] eqn:R; cbn [negb].
      * rewrite (account_counted st l k c D R).
        destruct (quantity c (strip l)) as [n|]; [|discriminate].
        intros E. apply IH in E. exact E.
      * rewrite (account_excepted st l D R). intros E. apply IH in E.
        rewrite E. simpl. now rewrite <- app_assoc.
Qed.

Lemma fold_account_processed (lines : list str) (st st' : state) (x : str) :
  for_each account lines st = Some st' ->
  (In x (processed_lines st')
   <-> In x (processed_lines st)
       \/ exists l, In l lines /\ counted_line l = true /\ strip l = x).
Proof.
  revert st. induction lines as [|l lines IH]; intros st; cbn [for_each].
  - intros E; injection E as <-. split; [auto | intros [H|(l & [] & _)]; exact H].
  - destruct (account st l) as [st1|] eqn:A; [|discriminate].
    intros E. rewrite (IH st1 E).
    assert (Hl : In x (processed_lines st1)
                 <-> In x (processed_lines st) \/ (counted_line l = true /\ strip l = x)).
    { unfold counted_line, aggregated.
      destruct (discarded l) eqn:D; simpl.
      - rewrite account_discarded in A by exact D. injection A as <-.
        intuition discriminate.
      - destruct (resolve (strip l)) as [[k c]|] eqn:R; simpl.
        + rewrite (account_counted st l k c D R) in A.
          destruct (quantity c (strip l)) as [n|]; [|discriminate].
          injection A as <-. simpl. rewrite set_add_In. intuition.
        + rewrite (account_excepted st l D R) in A. injection A as <-. simpl.
          intuition discriminate. }
    rewrite Hl. simpl. split.
    + intros [[H|[Hc Hs]]|(l' & Hin & Hc & Hs)]; auto.
      * right. exists l. auto.
      * right. exists l'. auto.
    + intros [H|(l' & [<-|Hin] & Hc & Hs)]; auto.
      right. exists l'. auto.
Qed.

Lemma fold_account_all (lines : list str) (st st' : state) (x : str) :
  for_each account lines st = Some st' ->
  In x (all_lines st') ->
  In x (all_lines st) \/ exists l, In l lines /\ discarded l = false /\ strip l = x.
Proof.
  revert st. induction lines as [|l lines IH]; intros st; cbn [for_each].
  - intros E; injection E as <-. auto.
  - destruct (account st l) as [st1|] eqn:A; [|discriminate].
    intros E H. apply (IH st1 E) in H as [H|(l' & Hin & Hd & Hs)];
      [|right; exists l'; simpl; auto].
    destruct (discarded l) eqn:D.
    { rewrite account_discarded in A by exact D. injection A as <-. auto. }
    assert (Hm : In x (mark (strip l) (all_lines st)) ->
                 In x (all_lines st)
                 \/ exists l0, In l0 (l :: lines) /\ discarded l0 = false /\ strip l0 = x).
    { unfold mark. destruct (_ || _); [|auto].
      rewrite set_add_In. intros [->|Hx]; [|auto]. right. exists l. simpl. auto. }
    destruct (resolve (strip l)) as [[k c]|] eqn:R.
    + rewrite (account_counted st l k c D R) in A.
      destruct (quantity c (strip l)) as [n|]; [|discriminate].
      injection A as <-. now apply Hm.
    + rewrite (account_excepted st l D R) in A. injection A as <-. now apply Hm.
Qed.

(** The closing sweep records nothing when every line it meets is already
    counted or already recorded. *)
Lemma sweep_nothing (order : list str) (st : state) :
  (forall x, In x order ->
     In (strip x) (processed_lines st) \/ In (strip x) (exception_records st)) ->
  _process_unmatched_records lazy_pinyin branch_managers st order = st.
Proof.
  unfold _process_unmatched_records.
  induction order as [|x order IH]; intros H; simpl; [reflexivity|].
  assert (E : sweep_line lazy_pinyin branch_managers st x = st).
  { unfold sweep_line.
    destruct (set_mem (strip x) (processed_lines st)) eqn:P; [reflexivity|].
    simpl. destruct (H x (or_introl eq_refl)) as [Hp|He].
    - apply set_mem_In in Hp. congruence.
    - apply set_mem_In in He. rewrite He. simpl.
      destruct (_extract_branch_and_manager _ _ x) as [[[b m] rem]|];
        [destruct (negb (truthy b) || negb (truthy m))|]; reflexivity. }
  rewrite E. apply IH. intros y Hy. apply H. now right.
Qed.

Lemma aggregated_strip (l : str) : aggregated (strip l) = aggregated l.
Proof. unfold aggregated. now rewrite strip_idempotent. Qed.

(** After the lines are processed, every line of [all_lines] is counted or
    recorded, so the sweep changes nothing. *)
Lemma sweep_after_processing (lines order : list str) (st : state) :
  for_each account lines (init branch_managers) = Some st ->
  (forall x, In x order -> In x (all_lines st)) ->
  _process_unmatched_records lazy_pinyin branch_managers st order = st.
Proof.
  intros E Hsub. apply sweep_nothing. intros x Hx.
  apply Hsub in Hx. apply (fold_account_all lines _ _ x E) in Hx
    as [[]|(l & Hin & Hd & <-)].
  rewrite strip_idempotent.
  destruct (aggregated l) eqn:A.
  - left. apply (fold_account_processed lines _ _ (strip l) E). right. exists l.
    unfold counted_line. now rewrite Hd, A.
  - right. rewrite (fold_account_exceptions lines _ _ E). simpl.
    apply in_map, filter_In. split; [exact Hin|].
    unfold excepted. now rewrite Hd, A.
Qed.

End Pipeline.

(** ** C2 and C3: counted lines and the exception list *)

(** A roster of one branch with one manager, and a configuration in which
    锁存 is the keyword of the lock-in category. *)
Definition small_roster : roster := [ (utf8 "A支局", [utf8 "张三"]) ].

Definition lock_config : business_categories :=
  [ (utf8 "lock_storage", {| keywords := [utf8 "锁存"]; exclude_keywords := [] |}) ].

(** A recovery line whose count is written with 4301 digits. *)
Definition overlong_count_line : str :=
  utf8 "1. A支局 张三 复机" ++ repeat 49 4301 ++ utf8 "户".

(** C2, counterexample: two lines that are not blank and are not title
    lines, and that name a branch, a manager and a category of the
    configuration, end in neither outcome. The line A支局 张三 锁存 has no
    digit, so the loop passes over it: no counter moves and the exception
    list stays empty. The recovery line with a count of 4301 digits makes
    [int] raise inside [extract_number]: the run ends there, with no report
    and no exception list. *)
Lemma line_in_neither_outcome :
  (truthy (strip (utf8 "A支局 张三 锁存")) = true
   /\ _is_title_line (utf8 "A支局 张三 锁存") = false
   /\ aggregated keep_text small_roster lock_config (utf8 "A支局 张三 锁存") = true
   /\ run keep_text small_roster lock_config (utf8 "A支局 张三 锁存") []
      = Some (report_rows (_init_manager_data small_roster), []))
  /\ (discarded overlong_count_line = false
      /\ aggregated keep_text small_roster recovery_config overlong_count_line = true
      /\ run keep_text small_roster recovery_config overlong_count_line [] = None).
Proof.
  split.
  - split; [vm_compute; reflexivity|].
    split; [vm_compute; reflexivity|].
    split; vm_compute; reflexivity.
  - split; [vm_compute; reflexivity|].
    split; vm_compute; reflexivity.
Qed.

Lemma run_accounted (lazy_pinyin : str -> list str) (branch_managers : roster)
    (business_config : business_categories) (lines order : list str) (st : state) :
  process_all_data lazy_pinyin branch_managers business_config
    (init branch_managers) lines = Some st ->
  (forall x, In x order -> In x (all_lines st)) ->
  _process_unmatched_records lazy_pinyin branch_managers st order = st
  /\ for_each (count_step lazy_pinyin branch_managers business_config)
       (filter (counted_line lazy_pinyin branch_managers business_config) lines)
       (_init_manager_data branch_managers)
     = Some (manager_data st)
  /\ exception_records st
     = map strip (filter (excepted lazy_pinyin branch_managers business_config) lines).
Proof.
  intros E Hsub.
  rewrite process_all_account in E by apply init_seeded.
  split; [now apply (sweep_after_processing lazy_pinyin branch_managers
                       business_config lines)|].
  split.
  - change (_init_manager_data branch_managers)
      with (manager_data (init branch_managers)).
    rewrite <- fold_account_data, E. reflexivity.
  - now rewrite (fold_account_exceptions _ _ _ _ _ _ E).
Qed.

(** C2, amended: in a run that goes to its end, every line the loop keeps
    (not blank, with a digit, not a title) goes one way only. The counters
    of the report are the seeded ones after the kept lines that resolve to
    a pair and a category, each applied once and in order; the exception
    list is made of the other kept lines, in order; and the text of a kept
    line stands in the exception list exactly when the line is not counted.
    [st] is the state [process_all_data] ends with, and [order] the order in
    which the closing sweep walks the set [all_lines]. *)
Theorem kept_line_counted_or_recorded (lazy_pinyin : str -> list str)
    (branch_managers : roster) (business_config : business_categories)
    (lines order : list str) (st : state) :
  let recorded :=
    map strip (filter (excepted lazy_pinyin branch_managers business_config) lines) in
  process_all_data lazy_pinyin branch_managers business_config
    (init branch_managers) lines = Some st ->
  (forall x, In x order -> In x (all_lines st)) ->
  (exists counters,
     for_each (count_step lazy_pinyin branch_managers business_config)
       (filter (counted_line lazy_pinyin branch_managers business_config) lines)
       (_init_manager_data branch_managers) = Some counters
     /\ generate_report lazy_pinyin branch_managers st order
        = (report_rows counters, recorded))
  /\ forall l, In l lines -> discarded l = false ->
       (aggregated lazy_pinyin branch_managers business_config l = true
        /\ In (strip l) (processed_lines st) /\ ~ In (strip l) recorded)
       \/ (aggregated lazy_pinyin branch_managers business_config l = false
           /\ ~ In (strip l) (processed_lines st) /\ In (strip l) recorded).
Proof.
  intros recorded Hrun Hsub.
  destruct (run_accounted lazy_pinyin branch_managers business_config lines order
              st Hrun Hsub) as (Hsweep & Hdata & Hexc).
  split.
  { exists (manager_data st). split; [exact Hdata|].
    unfold generate_report. rewrite Hsweep, Hexc. reflexivity. }
  assert (Hproc : forall x, In x (processed_lines st) <->
            exists l, In l lines
              /\ counted_line lazy_pinyin branch_managers business_config l = true
              /\ strip l = x).
  { intros x. rewrite process_all_account in Hrun by apply init_seeded.
    rewrite (fold_account_processed _ _ _ _ _ _ x Hrun). simpl. tauto. }
  assert (Hrec : forall x, In x recorded <->
            exists l, In l lines
              /\ excepted lazy_pinyin branch_managers business_config l = true
              /\ strip l = x).
  { intros x. unfold recorded. rewrite in_map_iff. split.
    - intros (l & Hs & Hf). apply filter_In in Hf as [Hin He]. now exists l.
    - intros (l & Hin & He & Hs). exists l. split; [exact Hs|].
      now apply filter_In. }
  intros l Hin Hd.
  destruct (aggregated lazy_pinyin branch_managers business_config l) eqn:A.
  - left. split; [reflexivity|]. split.
    + apply Hproc. exists l. unfold counted_line. now rewrite Hd, A.
    + intros H. apply Hrec in H as (l' & _ & He & Hs).
      unfold excepted in He. apply andb_true_iff in He as [_ He].
      rewrite <- aggregated_strip, Hs, aggregated_strip, A in He. discriminate.
  - right. split; [reflexivity|]. split.
    + intros H. apply Hproc in H as (l' & _ & Hc & Hs).
      unfold counted_line in Hc. apply andb_true_iff in Hc as [_ Hc].
      rewrite <- aggregated_strip, Hs, aggregated_strip, A in Hc. discriminate.
    + apply Hrec. exists l. unfold excepted. now rewrite Hd, A.
Qed.

(** A text of two lines: one is counted, the other names a branch the
    roster does not have. *)
Definition two_lines : list str :=
  [utf8 "1. A支局 张三 锁存1户"; utf8 "2. B支局 李四 锁存1户"].

(** The state [process_all_data] ends with on these lines. *)
Definition two_lines_state : state :=
  {| manager_data :=
       [ ((utf8 "A支局", utf8 "张三"),
          make_row (utf8 "A支局") (utf8 "张三") []
            (fun c => if category_eqb c lock_storage then 1 else 0) 1) ];
     exception_records := [utf8 "2. B支局 李四 锁存1户"];
     processed_lines := [utf8 "1. A支局 张三 锁存1户"];
     all_lines := two_lines |}.

(** The hypotheses of C2 on the two lines: the run goes to its end, the
    first line is counted and the second is recorded. *)
Lemma kept_line_counted_or_recorded_witness :
  process_all_data keep_text small_roster lock_config (init small_roster) two_lines
  = Some two_lines_state
  /\ snd (generate_report keep_text small_roster two_lines_state two_lines)
     = [utf8 "2. B支局 李四 锁存1户"]
  /\ In (utf8 "1. A支局 张三 锁存1户") (processed_lines two_lines_state)
  /\ ~ In (utf8 "1. A支局 张三 锁存1户") [utf8 "2. B支局 李四 锁存1户"].
Proof.
  assert (E : process_all_data keep_text small_roster lock_config
                (init small_roster) two_lines = Some two_lines_state)
    by (vm_compute; reflexivity).
  assert (Hsub : forall x, In x two_lines -> In x (all_lines two_lines_state))
    by (intros x H; exact H).
  destruct (kept_line_counted_or_recorded keep_text small_roster lock_config
              two_lines two_lines two_lines_state E Hsub)
    as [(counters & _ & Hrep) Hlines].
  split; [exact E|].
  split.
  { rewrite Hrep. vm_compute. reflexivity. }
  destruct (Hlines (utf8 "1. A支局 张三 锁存1户") (or_introl eq_refl))
    as [(_ & Hp & Hn)|(A & _)].
  - vm_compute. reflexivity.
  - split; [exact Hp|]. intros H. apply Hn. vm_compute. vm_compute in H. exact H.
  - vm_compute in A. discriminate.
Defined.

(** C3, counterexample: the same line, naming a branch the roster does not
    have, is posted twice; [process_all_data] appends it to the exception
    list each time, and the list the run returns holds it twice. *)
Lemma duplicate_line_recorded_twice :
  option_map snd
    (run keep_text small_roster lock_config
       (join_lines [utf8 "1. B支局 李四 锁存1户"; utf8 "1. B支局 李四 锁存1户"])
       [utf8 "1. B支局 李四 锁存1户"])
  = Some [utf8 "1. B支局 李四 锁存1户"; utf8 "1. B支局 李四 锁存1户"].
Proof. vm_compute. reflexivity. Qed.

Lemma filter_map_length {S T : Type} (p : T -> bool) (f : S -> T) (l : list S) :
  length (filter p (map f l)) = length (filter (fun a => p (f a)) l).
Proof.
  induction l as [|a l IH]; simpl; [reflexivity|].
  destruct (p (f a)); simpl; now rewrite IH.
Qed.

Lemma filter_filter {T : Type} (p q : T -> bool) (l : list T) :
  filter q (filter p l) = filter (fun a => p a && q a) l.
Proof.
  induction l as [|a l IH]; simpl; [reflexivity|].
  destruct (p a); simpl; [destruct (q a)|]; now rewrite IH.
Qed.

(** C3, amended: the exception list of a run that goes to its end holds a
    text once for every kept line of the input that has this text, once
    trimmed, and is not counted; the closing sweep adds no line to it. A
    text that fails twice is therefore recorded twice. *)
Theorem exception_once_per_occurrence (lazy_pinyin : str -> list str)
    (branch_managers : roster) (business_config : business_categories)
    (lines order : list str) (st : state) :
  process_all_data lazy_pinyin branch_managers business_config
    (init branch_managers) lines = Some st ->
  (forall x, In x order -> In x (all_lines st)) ->
  snd (generate_report lazy_pinyin branch_managers st order) = exception_records st
  /\ forall x,
       length (filter (PyStr.eqb x)
                 (snd (generate_report lazy_pinyin branch_managers st order)))
       = length (filter
                   (fun l => excepted lazy_pinyin branch_managers business_config l
                             && PyStr.eqb x (strip l)) lines).
Proof.
  intros Hrun Hsub.
  destruct (run_accounted lazy_pinyin branch_managers business_config lines order
              st Hrun Hsub) as (Hsweep & _ & Hexc).
  unfold generate_report. rewrite Hsweep. simpl. split; [reflexivity|].
  intros x. rewrite Hexc, filter_map_length, filter_filter. reflexivity.
Qed.

(** The state [process_all_data] ends with when the line of the
    counterexample is posted twice. *)
Definition twice_state : state :=
  {| manager_data := _init_manager_data small_roster;
     exception_records := [utf8 "1. B支局 李四 锁存1户"; utf8 "1. B支局 李四 锁存1户"];
     processed_lines := [];
     all_lines := [utf8 "1. B支局 李四 锁存1户"] |}.

Lemma exception_once_per_occurrence_witness :
  process_all_data keep_text small_roster lock_config (init small_roster)
    [utf8 "1. B支局 李四 锁存1户"; utf8 "1. B支局 李四 锁存1户"]
  = Some twice_state
  /\ length (filter (PyStr.eqb (utf8 "1. B支局 李四 锁存1户"))
               (snd (generate_report keep_text small_roster twice_state
                       [utf8 "1. B支局 李四 锁存1户"])))
     = 2%nat.
Proof.
  assert (E : process_all_data keep_text small_roster lock_config (init small_roster)
                [utf8 "1. B支局 李四 锁存1户"; utf8 "1. B支局 李四 锁存1户"]
              = Some twice_state)
    by (vm_compute; reflexivity).
  split; [exact E|].
  refine (proj2 (exception_once_per_occurrence keep_text small_roster lock_config
    [utf8 "1. B支局 李四 锁存1户"; utf8 "1. B支局 李四 锁存1户"]
    [utf8 "1. B支局 李四 锁存1户"] twice_state E _) (utf8 "1. B支局 李四 锁存1户")).
  intros x H. exact H.
Defined.

(** ** C10: what a counted line adds *)

Lemma count_set_count (r : row) (c d : category) (v : Z) :
  count (set_count r c v) d = if category_eqb d c then v else count r d.
Proof. destruct d; reflexivity. Qed.

Lemma count_update_total (r : row) (d : category) :
  count (update_total r) d = count r d.
Proof. destruct d; reflexivity. Qed.

Lemma category_eqb_eq (c d : category) : category_eqb c d = true <-> c = d.
Proof. destruct c, d; simpl; split; congruence. Qed.

(** The row of the pair [(b, m)] after a line has added [n] to its counter
    of [c]: that counter has grown by [n] and the others are as they were. *)
Definition bumped (st st' : state) (b m : str) (r : row) (c : category) (n : Z)
  : Prop :=
  exists r',
    PyDict.get key_eqb (manager_data st') (b, m) = Some r'
    /\ count r' c = count r c + n
    /\ forall d, d <> c -> count r' d = count r d.

Lemma add_count_bumped (st st' : state) (b m : str) (r : row) (c : category)
    (n : Z) :
  PyDict.get key_eqb (manager_data st) (b, m) = Some r ->
  manager_data st' = add_count (manager_data st) (b, m) c n ->
  bumped st st' b m r c n.
Proof.
  intros Hr Hst. unfold bumped. rewrite Hst. unfold add_count. rewrite Hr.
  eexists. split; [apply (get_set_same key_eqb key_eqb_eq)|].
  rewrite !count_update_total, !count_set_count.
  rewrite (proj2 (category_eqb_eq c c) eq_refl).
  split; [reflexivity|].
  intros d Hdc. rewrite count_update_total, count_set_count.
  destruct (category_eqb d c) eqn:E; [|reflexivity].
  apply category_eqb_eq in E. contradiction.
Qed.

(** C10: a kept line that resolves to a pair of the counters and is
    classified into 锁存, 拆机挽留 or 降档挽留 is always counted, and adds
    exactly 1 to the counter of its category, whatever the line says. A
    line classified into 当月复机, 上月复机 or 高危复机 is the only one
    [extract_number] is applied to: it adds the count [extract_number]
    reads in it, and ends the run when [extract_number] raises. The other
    counters of the row stay as they were. *)
Theorem counted_line_adds (lazy_pinyin : str -> list str)
    (branch_managers : roster) (business_config : business_categories)
    (st : state) (line b m rem : str) (c : category) (r : row) :
  discarded line = false ->
  _extract_branch_and_manager lazy_pinyin branch_managers (strip line)
  = Some (b, m, rem) ->
  truthy b = true ->
  match_category business_config _category_mapping (strip line) = Some c ->
  PyDict.get key_eqb (manager_data st) (b, m) = Some r ->
  (c = lock_storage \/ c = dismantle_retention \/ c = downgrade_retention ->
     exists st',
       process_line lazy_pinyin branch_managers business_config st line = Some st'
       /\ bumped st st' b m r c 1)
  /\ (c = current_month_recovery \/ c = last_month_recovery
      \/ c = high_risk_recovery ->
        match extract_number (strip line) with
        | Some n =>
          exists st',
            process_line lazy_pinyin branch_managers business_config st line
            = Some st'
            /\ bumped st st' b m r c n
        | None =>
          process_line lazy_pinyin branch_managers business_config st line = None
        end).
Proof.
  intros Hd He Tb Hc Hr.
  unfold discarded in Hd. cbv zeta in Hd.
  apply orb_false_iff in Hd as [Hd Ht]. apply orb_false_iff in Hd as [Hb Hg].
  assert (Hstep : process_line lazy_pinyin branch_managers business_config st line
                  = match quantity c (strip line) with
                    | Some num =>
                      Some {| manager_data :=
                                add_count (manager_data st) (b, m) c num;
                              exception_records := exception_records st;
                              processed_lines :=
                                set_add (strip line) (processed_lines st);
                              all_lines :=
                                mark (strip line) (all_lines st) |}
                    | None => None
                    end).
  { unfold process_line, mark. cbv zeta.
    rewrite Hb, Hg, Ht. cbn [orb]. rewrite He, Tb. cbn [negb].
    destruct (contains (utf8 "支局") (strip line) || contains (utf8 "分局") (strip line));
      cbn [manager_data exception_records processed_lines all_lines];
      unfold PyDict.mem; rewrite Hr; cbn [negb]; rewrite Hc; reflexivity. }
  rewrite Hstep. split.
  - intros Hcat.
    assert (Q : quantity c (strip line) = Some 1)
      by (destruct Hcat as [->|[->| ->]]; reflexivity).
    rewrite Q. eexists. split; [reflexivity|].
    now apply add_count_bumped.
  - intros Hcat.
    assert (Q : quantity c (strip line) = extract_number (strip line))
      by (destruct Hcat as [->|[->| ->]]; reflexivity).
    rewrite Q. destruct (extract_number (strip line)) as [n|]; [|reflexivity].
    eexists. split; [reflexivity|].
    now apply add_count_bumped.
Qed.

(** The hypotheses of C10 on two lines: a lock-in line that writes 5户
    takes the counter of 锁存 from 0 to 1, and a recovery line that writes
    3户 takes the counter of 当月复机 from 0 to 3. *)
Lemma counted_line_adds_witness :
  (exists st',
     process_line keep_text small_roster lock_config (init small_roster)
       (utf8 "1. A支局 张三 锁存5户") = Some st'
     /\ bumped (init small_roster) st' (utf8 "A支局") (utf8 "张三")
          (zero_row (utf8 "A支局") (utf8 "张三")) lock_storage 1)
  /\ (exists st',
        process_line keep_text small_roster recovery_config (init small_roster)
          (utf8 "1. A支局 张三 复机3户") = Some st'
        /\ bumped (init small_roster) st' (utf8 "A支局") (utf8 "张三")
             (zero_row (utf8 "A支局") (utf8 "张三")) current_month_recovery 3).
Proof.
  split.
  - apply (proj1 (counted_line_adds keep_text small_roster lock_config
                    (init small_roster)
                    (utf8 "1. A支局 张三 锁存5户") (utf8 "A支局") (utf8 "张三")
                    (utf8 "1.  张三 锁存5户") lock_storage
                    (zero_row (utf8 "A支局") (utf8 "张三"))
                    eq_refl eq_refl eq_refl eq_refl eq_refl)).
    left. reflexivity.
  - assert (E : extract_number (strip (utf8 "1. A支局 张三 复机3户")) = Some 3)
      by (vm_compute; reflexivity).
    pose proof (proj2 (counted_line_adds keep_text small_roster recovery_config
                    (init small_roster)
                    (utf8 "1. A支局 张三 复机3户") (utf8 "A支局") (utf8 "张三")
                    (utf8 "1.  张三 复机3户") current_month_recovery
                    (zero_row (utf8 "A支局") (utf8 "张三"))
                    eq_refl eq_refl eq_refl eq_refl eq_refl)
                 (or_introl eq_refl)) as H.
    rewrite E in H. exact H.
Defined.

(** ** Sums, orders and groups *)

Lemma fold_add_shift (l : list Z) (a : Z) :
  fold_left Z.add l a = a + fold_left Z.add l 0.
Proof.
  revert a. induction l as [|x l IH]; intros a; simpl; [lia|].
  rewrite (IH (a + x)), (IH x). lia.
Qed.

Lemma fold_add_app (l1 l2 : list Z) :
  fold_left Z.add (l1 ++ l2) 0 = fold_left Z.add l1 0 + fold_left Z.add l2 0.
Proof. rewrite fold_left_app. apply fold_add_shift. Qed.

Lemma fold_add_perm (l1 l2 : list Z) :
  Permutation l1 l2 -> fold_left Z.add l1 0 = fold_left Z.add l2 0.
Proof.
  induction 1 as [|x l1 l2 _ IH|x y l|l1 l2 l3 _ IH1 _ IH2]; simpl.
  - reflexivity.
  - rewrite (fold_add_shift l1), (fold_add_shift l2). now rewrite IH.
  - rewrite (fold_add_shift l (y + x)), (fold_add_shift l (x + y)). lia.
  - congruence.
Qed.

(** Lexicographic order of strings. *)
Lemma ltb_irrefl (a : str) : PyStr.ltb a a = false.
Proof.
  induction a as [|x a IH]; simpl; [reflexivity|].
  rewrite Z.ltb_irrefl, Z.eqb_refl, IH. reflexivity.
Qed.

Lemma ltb_trans (a b c : str) :
  PyStr.ltb a b = true -> PyStr.ltb b c = true -> PyStr.ltb a c = true.
Proof.
  revert b c. induction a as [|x a IH]; intros [|y b] [|z c]; simpl;
    try discriminate; auto.
  intros H1 H2.
  apply orb_true_iff in H1 as [H1|H1]; apply orb_true_iff in H2 as [H2|H2];
    apply orb_true_iff.
  - left. apply Z.ltb_lt in H1, H2. apply Z.ltb_lt. lia.
  - apply andb_true_iff in H2 as [H2 _]. apply Z.eqb_eq in H2. subst. auto.
  - apply andb_true_iff in H1 as [H1 _]. apply Z.eqb_eq in H1. subst. auto.
  - apply andb_true_iff in H1 as [H1 H1']. apply andb_true_iff in H2 as [H2 H2'].
    apply Z.eqb_eq in H1, H2. subst. right.
    rewrite Z.eqb_refl. simpl. eapply IH; eauto.
Qed.

Lemma ltb_total (a b : str) :
  PyStr.ltb a b = false -> PyStr.ltb b a = false -> a = b.
Proof.
  revert b. induction a as [|x a IH]; intros [|y b]; simpl; try discriminate; auto.
  intros H1 H2.
  apply orb_false_iff in H1 as [H1 H1']. apply orb_false_iff in H2 as [H2 H2'].
  apply Z.ltb_ge in H1, H2. assert (x = y) by lia. subst y.
  rewrite Z.eqb_refl in H1', H2'. simpl in H1', H2'.
  f_equal. now apply IH.
Qed.

Lemma leb_total (a b : str) : PyStr.leb a b = true \/ PyStr.leb b a = true.
Proof.
  unfold PyStr.leb. destruct (PyStr.ltb b a) eqn:E; [|now left].
  right. destruct (PyStr.ltb a b) eqn:E'; [|reflexivity].
  pose proof (ltb_trans _ _ _ E E') as H. rewrite ltb_irrefl in H. discriminate.
Qed.

Lemma leb_trans (a b c : str) :
  PyStr.leb a b = true -> PyStr.leb b c = true -> PyStr.leb a c = true.
Proof.
  unfold PyStr.leb. intros H1 H2.
  apply negb_true_iff in H1, H2. apply negb_true_iff.
  destruct (PyStr.ltb c a) eqn:E; [|reflexivity].
  destruct (PyStr.ltb a b) eqn:E1.
  - pose proof (ltb_trans _ _ _ E E1). congruence.
  - pose proof (ltb_total _ _ E1 H1). subst b. congruence.
Qed.

Lemma leb_neq_ltb (a b : str) :
  PyStr.leb a b = true -> a <> b -> PyStr.ltb a b = true.
Proof.
  unfold PyStr.leb. intros H N. apply negb_true_iff in H.
  destruct (PyStr.ltb a b) eqn:E; [reflexivity|].
  exfalso. apply N. now apply ltb_total.
Qed.

Section SortFacts.
Context {T : Type} (key : T -> str).

Definition key_le (x y : T) : Prop := PyStr.leb (key x) (key y) = true.

Lemma insert_perm (x : T) (l : list T) :
  Permutation (PySort.insert key x l) (x :: l).
Proof.
  induction l as [|y l IH]; simpl; [reflexivity|].
  destruct (PyStr.leb (key x) (key y)); [reflexivity|].
  rewrite IH. apply perm_swap.
Qed.

Lemma sorted_perm (l : list T) : Permutation (PySort.sorted key l) l.
Proof.
  induction l as [|x l IH]; simpl; [reflexivity|].
  rewrite insert_perm. now constructor.
Qed.

Lemma insert_sorted (x : T) (l : list T) :
  StronglySorted key_le l -> StronglySorted key_le (PySort.insert key x l).
Proof.
  induction 1 as [|y l Hs IH Hy]; simpl.
  - constructor; constructor.
  - destruct (PyStr.leb (key x) (key y)) eqn:E.
    + constructor; [now constructor|]. constructor; [exact E|].
      apply Forall_forall. intros z Hz. rewrite Forall_forall in Hy.
      unfold key_le. eapply leb_trans; [exact E | now apply Hy].
    + constructor; [exact IH|].
      apply Forall_forall. intros z Hz.
      apply (Permutation_in _ (insert_perm x l)) in Hz as [<-|Hz].
      * destruct (leb_total (key x) (key y)) as [H|H]; [congruence | exact H].
      * rewrite Forall_forall in Hy. now apply Hy.
Qed.

Lemma sorted_sorted (l : list T) : StronglySorted key_le (PySort.sorted key l).
Proof.
  induction l as [|x l IH]; simpl; [constructor | now apply insert_sorted].
Qed.

End SortFacts.

(** Sorted names that are all different increase strictly. *)
Lemma sorted_strict (l : list str) :
  NoDup l -> StronglySorted (fun a b => PyStr.ltb a b = true)
               (PySort.sorted (fun b => b) l).
Proof.
  intros ND.
  assert (ND' : NoDup (PySort.sorted (fun b => b) l)).
  { eapply Permutation_NoDup; [symmetry; apply sorted_perm | exact ND]. }
  pose proof (sorted_sorted (fun b : str => b) l) as S.
  induction S as [|x s Hs IH Hx]; [constructor|].
  inversion ND' as [|? ? Hn ND'']; subst.
  constructor; [now apply IH|].
  rewrite Forall_forall in *. intros y Hy.
  apply leb_neq_ltb; [now apply Hx|]. intros ->. contradiction.
Qed.

(** Rows grouped by a label: the groups of a list of distinct labels that
    covers the rows are the rows, in another order. *)
Section Groups.
Context {R : Type} (label : R -> str).

Definition with_label (b : str) (rows : list R) : list R :=
  filter (fun r => PyStr.eqb (label r) b) rows.

Lemma with_label_app (b : str) (l1 l2 : list R) :
  with_label b (l1 ++ l2) = with_label b l1 ++ with_label b l2.
Proof. apply filter_app. Qed.

Lemma with_label_absent (b : str) (rows : list R) :
  (forall r, In r rows -> label r <> b) -> with_label b rows = [].
Proof.
  induction rows as [|r rows IH]; intros H; simpl; [reflexivity|].
  destruct (PyStr.eqb (label r) b) eqn:E.
  - apply str_eqb_eq in E. exfalso. apply (H r); [now left | exact E].
  - apply IH. intros r' Hr'. apply H. now right.
Qed.

Lemma groups_perm (bs : list str) (rows : list R) :
  NoDup bs -> (forall r, In r rows -> In (label r) bs) ->
  Permutation (flat_map (fun b => with_label b rows) bs) rows.
Proof.
  intros ND. induction rows as [|r rows IH]; intros Hcov.
  - induction bs as [|b bs IHb]; simpl; [constructor|].
    inversion ND; subst. now apply IHb.
  - assert (Hin : In (label r) bs) by (apply Hcov; now left).
    apply in_split in Hin as (b1 & b2 & Hbs).
    assert (Hrest : Permutation (flat_map (fun b => with_label b rows) bs) rows).
    { apply IH. intros r' Hr'. apply Hcov. now right. }
    rewrite Hbs in *. rewrite flat_map_app in *. simpl in *.
    rewrite str_eqb_refl.
    assert (Hout : forall bl, ~ In (label r) bl ->
              flat_map (fun b => if PyStr.eqb (label r) b
                                 then r :: with_label b rows
                                 else with_label b rows) bl
              = flat_map (fun b => with_label b rows) bl).
    { intros bl Hn. induction bl as [|b bl IHbl]; simpl; [reflexivity|].
      destruct (PyStr.eqb (label r) b) eqn:E.
      - apply str_eqb_eq in E. exfalso. apply Hn. now left.
      - rewrite IHbl; [reflexivity|]. intros H. apply Hn. now right. }
    apply NoDup_remove_2 in ND as Hn.
    rewrite !Hout by (intros H; apply Hn, in_or_app; auto).
    rewrite <- Hrest at 2.
    symmetry. apply Permutation_cons_app. reflexivity.
Qed.

End Groups.

(** ** The layout of the manager report *)

(** A report laid out in blocks: the rows of each block, then the row that
    closes the block, and one last row after all the blocks. *)
Definition layout {R : Type} (blocks : list (list R * R)) (grand : R) : list R :=
  flat_map (fun bl => fst bl ++ [snd bl]) blocks ++ [grand].

Definition group_or_nil (groups : PyDict.dict (K := str) (V := list row))
    (b : str) : list row :=
  match PyDict.get PyStr.eqb groups b with Some l => l | None => [] end.

(** Every row carries the branch it is filed under. *)
Definition branch_keyed (d : PyDict.dict (K := key) (V := row)) : Prop :=
  forall k r, In (k, r) d -> branch_col r = fst k.

Lemma group_rows_spec (d : PyDict.dict (K := key) (V := row)) :
  branch_keyed d ->
  snd (group_rows d) = PyDict.values d
  /\ NoDup (PyDict.keys (fst (group_rows d)))
  /\ (forall b, group_or_nil (fst (group_rows d)) b
                = with_label branch_col b (PyDict.values d))
  /\ (forall b, In b (PyDict.keys (fst (group_rows d)))
                <-> exists r, In r (PyDict.values d) /\ branch_col r = b).
Proof.
  unfold group_rows.
  induction d as [|[k data] d IH] using rev_ind; intros Hk.
  - simpl. repeat split; try constructor; try tauto.
    intros (r & [] & _).
  - assert (Hk' : branch_keyed d).
    { intros k' r' Hin. apply Hk, in_or_app. now left. }
    destruct (IH Hk') as (Hall & Hnd & Hget & Hkeys).
    assert (Hb : branch_col data = fst k).
    { apply (Hk k data), in_or_app. right. now left. }
    rewrite fold_left_app. simpl.
    set (acc := fold_left group_step d ([], [])) in *.
    unfold group_step. simpl. unfold PyDict.values in *.
    rewrite map_app. simpl.
    split; [now rewrite Hall|].
    split; [now apply (NoDup_keys_set PyStr.eqb str_eqb_eq)|].
    split.
    + intros b. unfold group_or_nil. rewrite with_label_app. simpl.
      rewrite Hb.
      destruct (PyStr.eqb (fst k) b) eqn:E.
      * apply str_eqb_eq in E. subst b.
        rewrite (get_set_same PyStr.eqb str_eqb_eq).
        f_equal. apply Hget.
      * rewrite (get_set_other PyStr.eqb str_eqb_eq)
          by (now apply str_eqb_neq).
        rewrite app_nil_r. apply Hget.
    + intros b. rewrite (keys_set PyStr.eqb str_eqb_eq).
      assert (Hstep : In b (PyDict.keys (fst acc)) \/ b = fst k
                      <-> exists r, In r (map snd d ++ [data]) /\ branch_col r = b).
      { rewrite Hkeys. split.
        - intros [(r & Hr & Hrb)| ->].
          + exists r. split; [apply in_or_app; now left | exact Hrb].
          + exists data. split; [apply in_or_app; right; now left | exact Hb].
        - intros (r & Hr & Hrb). apply in_app_or in Hr as [Hr|[<-|[]]].
          + left. now exists r.
          + right. congruence. }
      rewrite <- Hstep. unfold PyDict.mem.
      destruct (PyDict.get PyStr.eqb (fst acc) (fst k)) eqn:G.
      * split; [auto|]. intros [H| ->]; [exact H|].
        apply (get_In PyStr.eqb str_eqb_eq) in G.
        change (fst k) with (fst (fst k, l)). now apply in_map.
      * rewrite in_app_iff. simpl. intuition.
Qed.

(** The blocks of the manager report: for each branch in sorted order, its
    rows sorted by manager and its 小计 row. *)
Definition manager_blocks (d : PyDict.dict (K := key) (V := row))
  : list (list row * row) :=
  map (fun b =>
         (PySort.sorted manager_col (with_label branch_col b (PyDict.values d)),
          subtotal_row b (with_label branch_col b (PyDict.values d))))
      (PySort.sorted (fun b => b) (PyDict.keys (fst (group_rows d)))).

Lemma report_rows_layout (d : PyDict.dict (K := key) (V := row)) :
  branch_keyed d ->
  report_rows d = layout (manager_blocks d) (total_row (PyDict.values d)).
Proof.
  intros Hk. destruct (group_rows_spec d Hk) as (Hall & _ & Hget & _).
  unfold report_rows, layout, manager_blocks.
  destruct (group_rows d) as [groups all]. simpl in *. subst all. f_equal.
  induction (PySort.sorted (fun b => b) (PyDict.keys groups)) as [|b bs IH];
    simpl; [reflexivity|].
  rewrite IH. f_equal. unfold branch_block. fold (group_or_nil groups b).
  now rewrite Hget.
Qed.

(** The counters keep their keys and their labels. *)
Definition well_keyed (d : PyDict.dict (K := key) (V := row)) : Prop :=
  NoDup (PyDict.keys d)
  /\ forall k r, In (k, r) d -> branch_col r = fst k /\ manager_col r = snd k.

Lemma set_In {K V : Type} (eqk : K -> K -> bool)
    (eqk_spec : forall a b, eqk a b = true <-> a = b)
    (d : PyDict.dict) (k k' : K) (v v' : V) :
  In (k', v') (PyDict.set eqk d k v) -> (k', v') = (k, v) \/ In (k', v') d.
Proof.
  destruct (set_cases eqk eqk_spec d k v) as [[_ ->]|(d1 & v0 & d2 & -> & _ & _ & ->)].
  - rewrite in_app_iff. simpl. intuition.
  - rewrite !in_app_iff. simpl. intuition.
Qed.

Lemma set_well_keyed (d : PyDict.dict) (k : key) (r : row) :
  well_keyed d -> branch_col r = fst k -> manager_col r = snd k ->
  well_keyed (PyDict.set key_eqb d k r).
Proof.
  intros [ND L] Hb Hm. split; [now apply (NoDup_keys_set key_eqb key_eqb_eq)|].
  intros k' r' Hin. apply (set_In key_eqb key_eqb_eq) in Hin as [E|Hin].
  - injection E as -> ->. auto.
  - now apply L.
Qed.

Lemma add_count_well_keyed (d : PyDict.dict) (k : key) (c : category) (n : Z) :
  well_keyed d -> well_keyed (add_count d k c n).
Proof.
  intros W. unfold add_count.
  destruct (PyDict.get key_eqb d k) as [r|] eqn:E; [|exact W].
  apply (get_In key_eqb key_eqb_eq) in E. destruct W as [ND L].
  destruct (L k r E) as [Hb Hm].
  apply set_well_keyed; [now split | exact Hb | exact Hm].
Qed.

Lemma init_well_keyed (branch_managers : roster) :
  well_keyed (_init_manager_data branch_managers).
Proof.
  unfold _init_manager_data.
  assert (H : forall items d, well_keyed d ->
    well_keyed (fold_left
       (fun d item =>
          fold_left (fun d' manager =>
                       PyDict.set key_eqb d' (fst item, manager)
                                  (zero_row (fst item) manager))
                    (snd item) d) items d)).
  { induction items as [|[b ms] items IH]; intros d W; simpl; [exact W|].
    apply IH. clear IH. revert d W.
    induction ms as [|m ms IHm]; intros d W; simpl; [exact W|].
    apply IHm. now apply set_well_keyed. }
  apply H. split; [constructor | intros k r []].
Qed.

Section Reachable.
Variable lazy_pinyin : str -> list str.
Variable branch_managers : roster.
Variable business_config : business_categories.

Lemma process_line_data (st st' : state) (line : str) :
  process_line lazy_pinyin branch_managers business_config st line = Some st' ->
  manager_data st' = manager_data st
  \/ exists k c n,
       quantity c (strip line) = Some n
       /\ manager_data st' = add_count (manager_data st) k c n.
Proof.
  unfold process_line. cbv zeta.
  destruct (negb (truthy (strip line)) || negb (has_digit (strip line)));
    [intros E; injection E as <-; now left|].
  destruct (_is_title_line (strip line)); [intros E; injection E as <-; now left|].
  set (st1 := if contains (utf8 "支局") (strip line) || contains (utf8 "分局") (strip line)
              then _ else st).
  assert (Hst1 : manager_data st1 = manager_data st).
  { unfold st1. now destruct (_ || _). }
  destruct (_extract_branch_and_manager _ _ _) as [[[b m] rem]|];
    [|intros E; injection E as <-; now left].
  destruct (negb (truthy b)); [intros E; injection E as <-; now left|].
  destruct (negb (PyDict.mem key_eqb (manager_data st1) (b, m)));
    [intros E; injection E as <-; now left|].
  destruct (match_category _ _ _) as [c|]; [|intros E; injection E as <-; now left].
  destruct (quantity c (strip line)) as [n|] eqn:Q; [|discriminate].
  intros E; injection E as <-.
  right. exists (b, m), c, n. simpl. now rewrite Hst1.
Qed.

(** What holds of the counters before the lines and is kept by [add_count]
    holds of the counters after them. *)
Lemma process_all_invariant (P : PyDict.dict (K := key) (V := row) -> Prop) :
  (forall d k c n line, quantity c line = Some n -> P d -> P (add_count d k c n)) ->
  forall lines st st',
    P (manager_data st) ->
    process_all_data lazy_pinyin branch_managers business_config st lines = Some st' ->
    P (manager_data st').
Proof.
  intros Hadd. unfold process_all_data.
  induction lines as [|l lines IH]; intros st st' H; cbn [for_each].
  - intros E; injection E as <-. exact H.
  - destruct (process_line _ _ _ st l) as [st1|] eqn:E1; [|discriminate].
    apply IH.
    destruct (process_line_data st st1 l E1) as [->|(k & c & n & Q & ->)];
      [exact H | now apply (Hadd _ _ _ _ _ Q)].
Qed.

Lemma process_all_well_keyed (lines : list str) (st st' : state) :
  well_keyed (manager_data st) ->
  process_all_data lazy_pinyin branch_managers business_config st lines = Some st' ->
  well_keyed (manager_data st').
Proof.
  apply (process_all_invariant well_keyed).
  intros d k c n line _. apply add_count_well_keyed.
Qed.

Lemma sweep_data (order : list str) (st : state) :
  manager_data (_process_unmatched_records lazy_pinyin branch_managers st order)
  = manager_data st.
Proof.
  unfold _process_unmatched_records. revert st.
  induction order as [|x order IH]; intros st; simpl; [reflexivity|].
  rewrite IH. unfold sweep_line.
  destruct (negb (set_mem (strip x) (processed_lines st))); [|reflexivity].
  destruct (negb (set_mem (strip x) (exception_records st)));
    destruct (_extract_branch_and_manager _ _ x) as [[[b m] rem]|];
    try destruct (negb (truthy b) || negb (truthy m)); reflexivity.
Qed.

End Reachable.

(** ** The rows of the manager report *)

Lemma count_make_row (b m p : str) (f : category -> Z) (t : Z) (c : category) :
  count (make_row b m p f t) c = f c.
Proof. destruct c; reflexivity. Qed.

Lemma filter_length_perm {T : Type} (p : T -> bool) (l l' : list T) :
  Permutation l l' -> length (filter p l) = length (filter p l').
Proof.
  induction 1 as [|x l1 l2 _ IH|x y l|l1 l2 l3 _ IH1 _ IH2]; simpl.
  - reflexivity.
  - destruct (p x); simpl; now rewrite IH.
  - destruct (p x), (p y); reflexivity.
  - congruence.
Qed.

Lemma filter_none {T : Type} (p : T -> bool) (l : list T) :
  (forall z, In z l -> p z = false) -> filter p l = [].
Proof.
  induction l as [|z l IH]; intros H; simpl; [reflexivity|].
  rewrite (H z) by now left. apply IH. intros y Hy. apply H. now right.
Qed.

Lemma nodup_filter_one {T : Type} (eqt : T -> T -> bool)
    (eqt_spec : forall a b, eqt a b = true <-> a = b) (l : list T) (x : T) :
  NoDup l -> In x l -> length (filter (fun y => eqt y x) l) = 1%nat.
Proof.
  induction 1 as [|y l Hn ND IH]; intros Hin; [contradiction|]. simpl.
  destruct (eqt y x) eqn:E.
  - apply eqt_spec in E. subst y. simpl. f_equal.
    rewrite filter_none; [reflexivity|].
    intros z Hz. destruct (eqt z x) eqn:E'; [|reflexivity].
    apply eqt_spec in E'. subst z. contradiction.
  - destruct Hin as [->|Hin]; [|now apply IH].
    rewrite (proj2 (eqt_spec x x) eq_refl) in E. discriminate.
Qed.

Lemma sum_zero {R : Type} (f : R -> Z) (rows : list R) :
  (forall r, In r rows -> f r = 0) -> fold_left Z.add (map f rows) 0 = 0.
Proof.
  induction rows as [|r rows IH]; intros H; simpl; [reflexivity|].
  rewrite fold_add_shift, IH, (H r); auto with datatypes.
Qed.

Lemma sum_flat_map {S R : Type} (f : R -> Z) (g : S -> list R) (bs : list S) :
  fold_left Z.add (map f (flat_map g bs)) 0
  = fold_left Z.add (map (fun b => fold_left Z.add (map f (g b)) 0) bs) 0.
Proof.
  induction bs as [|b bs IH]; [reflexivity|].
  cbn [flat_map map fold_left].
  rewrite map_app, fold_add_app, IH.
  rewrite (fold_add_shift _ (0 + _)). lia.
Qed.

(** The rows of the blocks are the rows of the counters. *)
Lemma manager_blocks_rows (d : PyDict.dict (K := key) (V := row)) :
  branch_keyed d ->
  Permutation (flat_map fst (manager_blocks d)) (PyDict.values d).
Proof.
  intros Hk. destruct (group_rows_spec d Hk) as (_ & Hnd & _ & Hkeys).
  unfold manager_blocks. rewrite flat_map_concat_map, map_map. simpl.
  rewrite <- flat_map_concat_map.
  set (bs := PySort.sorted (fun b => b) (PyDict.keys (fst (group_rows d)))).
  assert (Hperm : Permutation bs (PyDict.keys (fst (group_rows d))))
    by apply sorted_perm.
  transitivity (flat_map (fun b => with_label branch_col b (PyDict.values d)) bs).
  - clear Hperm. induction bs as [|b bs IH]; simpl; [constructor|].
    apply Permutation_app; [apply sorted_perm | exact IH].
  - apply groups_perm.
    + eapply Permutation_NoDup; [symmetry; exact Hperm | exact Hnd].
    + intros r Hr. apply (Permutation_in _ (Permutation_sym Hperm)).
      apply Hkeys. now exists r.
Qed.

Lemma well_keyed_branch (d : PyDict.dict (K := key) (V := row)) :
  well_keyed d -> branch_keyed d.
Proof. intros [_ L] k r Hin. now apply L. Qed.

(** The pair a row is labelled with. *)
Definition labels (r : row) : key := (branch_col r, manager_col r).

Lemma labelled_values (d : PyDict.dict (K := key) (V := row)) :
  (forall k r, In (k, r) d -> branch_col r = fst k /\ manager_col r = snd k) ->
  map labels (PyDict.values d) = PyDict.keys d.
Proof.
  induction d as [|[k r] d IH]; intros L; simpl; [reflexivity|].
  rewrite IH by (intros k' r' H; apply L; now right).
  destruct (L k r (or_introl eq_refl)) as [Hb Hm].
  unfold labels. rewrite Hb, Hm. now destruct k.
Qed.

Lemma filter_map_eq {S T : Type} (p : T -> bool) (f : S -> T) (l : list S) :
  filter p (map f l) = map f (filter (fun a => p (f a)) l).
Proof.
  induction l as [|a l IH]; simpl; [reflexivity|].
  destruct (p (f a)); simpl; now rewrite IH.
Qed.

Lemma pair_once (d : PyDict.dict (K := key) (V := row)) (k : key) :
  well_keyed d -> In k (PyDict.keys d) ->
  length (filter (fun r => key_eqb (labels r) k) (flat_map fst (manager_blocks d)))
  = 1%nat.
Proof.
  intros W Hin. pose proof (well_keyed_branch d W) as Hk. destruct W as [ND L].
  rewrite (filter_length_perm _ _ _ (manager_blocks_rows d Hk)).
  rewrite <- (nodup_filter_one key_eqb key_eqb_eq (PyDict.keys d) k ND Hin).
  rewrite <- (labelled_values d L), filter_map_length. reflexivity.
Qed.

Lemma mem_keys {K V : Type} (eqk : K -> K -> bool)
    (eqk_spec : forall a b, eqk a b = true <-> a = b)
    (d : PyDict.dict (V := V)) (k : K) :
  PyDict.mem eqk d k = true <-> In k (PyDict.keys d).
Proof.
  unfold PyDict.mem. destruct (PyDict.get eqk d k) as [v|] eqn:E.
  - split; [|reflexivity]. intros _. apply (get_In eqk eqk_spec) in E.
    change k with (fst (k, v)). now apply in_map.
  - split; [discriminate|]. intros H.
    apply (get_None eqk eqk_spec) in E. contradiction.
Qed.

Lemma add_count_keys (d : PyDict.dict) (k : key) (c : category) (n : Z) :
  PyDict.keys (add_count d k c n) = PyDict.keys d.
Proof.
  unfold add_count. destruct (PyDict.get key_eqb d k) as [r|] eqn:E; [|reflexivity].
  rewrite (keys_set key_eqb key_eqb_eq). unfold PyDict.mem. now rewrite E.
Qed.

Lemma init_rows_zero (branch_managers : roster) (k : key) (r : row) :
  In (k, r) (_init_manager_data branch_managers) -> r = zero_row (fst k) (snd k).
Proof.
  unfold _init_manager_data.
  assert (H : forall items d,
    (forall k r, In (k, r) d -> r = zero_row (fst k) (snd k)) ->
    forall k r,
      In (k, r) (fold_left
        (fun d item =>
           fold_left (fun d' manager =>
                        PyDict.set key_eqb d' (fst item, manager)
                                   (zero_row (fst item) manager))
                     (snd item) d) items d) ->
      r = zero_row (fst k) (snd k)).
  { induction items as [|[b ms] items IH]; intros d Z; simpl; [exact Z|].
    apply IH. clear IH. revert d Z.
    induction ms as [|m ms IHm]; intros d Z; simpl; [exact Z|].
    apply IHm. intros k' r' Hin.
    apply (set_In key_eqb key_eqb_eq) in Hin as [E|Hin]; [|now apply Z].
    now injection E as -> ->. }
  apply H. intros k' r' [].
Qed.

Section ManagerReport.
Variable lazy_pinyin : str -> list str.
Variable branch_managers : roster.
Variable business_config : business_categories.

(** The counters at the end of a run on a text; [None] when an exception
    ends the run. *)
Definition final_data (dragon_text : str)
  : option (PyDict.dict (K := key) (V := row)) :=
  option_map manager_data
    (process_all_data lazy_pinyin branch_managers business_config
       (init branch_managers)
       (map strip (filter (fun line => truthy (strip line))
                          (split_lines dragon_text)))).

(** Counters that have the pairs of the roster for keys, each once, and the
    labels of the key in each row. *)
Definition roster_keyed (d : PyDict.dict (K := key) (V := row)) : Prop :=
  well_keyed d
  /\ forall b m, In (b, m) (PyDict.keys d) <-> in_roster branch_managers b m.

Lemma run_report (dragon_text : str) (order : list str) (report : list row)
    (exc : list str) :
  run lazy_pinyin branch_managers business_config dragon_text order
  = Some (report, exc) ->
  exists d, final_data dragon_text = Some d /\ report = report_rows d.
Proof.
  unfold run, final_data, generate_report.
  destruct (process_all_data _ _ _ _ _) as [st|]; [|discriminate].
  intros E; injection E as <- _. exists (manager_data st).
  split; [reflexivity|]. now rewrite sweep_data.
Qed.

(** A run with counters at its end returns a report. *)
Lemma run_returns (dragon_text : str) (order : list str)
    (d : PyDict.dict (K := key) (V := row)) :
  final_data dragon_text = Some d ->
  exists exc,
    run lazy_pinyin branch_managers business_config dragon_text order
    = Some (report_rows d, exc).
Proof.
  unfold run, final_data, generate_report.
  destruct (process_all_data _ _ _ _ _) as [st|]; [|discriminate].
  intros E; injection E as <-. eexists. now rewrite sweep_data.
Qed.

Lemma init_roster_keyed : roster_keyed (_init_manager_data branch_managers).
Proof.
  split; [apply init_well_keyed|].
  intros b m. rewrite <- init_mem. symmetry. apply (mem_keys key_eqb key_eqb_eq).
Qed.

Lemma final_roster_keyed (dragon_text : str)
    (d : PyDict.dict (K := key) (V := row)) :
  final_data dragon_text = Some d -> roster_keyed d.
Proof.
  unfold final_data.
  destruct (process_all_data _ _ _ _ _) as [st|] eqn:E; [|discriminate].
  intros H; injection H as <-.
  revert E. apply (process_all_invariant _ _ _ roster_keyed);
    [|apply init_roster_keyed].
  intros d k c n line _ [W K]. split; [now apply add_count_well_keyed|].
  intros b m. rewrite add_count_keys. apply K.
Qed.

Lemma empty_text_data : final_data [] = Some (_init_manager_data branch_managers).
Proof. reflexivity. Qed.

Lemma final_layout (dragon_text : str) (order : list str) (report : list row)
    (exc : list str) :
  run lazy_pinyin branch_managers business_config dragon_text order
  = Some (report, exc) ->
  exists d,
    final_data dragon_text = Some d /\ roster_keyed d
    /\ report = layout (manager_blocks d) (total_row (PyDict.values d)).
Proof.
  intros H. apply run_report in H as (d & Hd & ->).
  exists d. split; [exact Hd|].
  pose proof (final_roster_keyed dragon_text d Hd) as K.
  split; [exact K|].
  apply report_rows_layout, well_keyed_branch, K.
Qed.

End ManagerReport.

(** ** The rows of the channel report *)

Module ChannelFacts.

Import ChannelReport.

(** The branch and the channel a row is labelled with. *)
Definition labels (r : row) : str * str := (branch_col r, channel_col r).

Lemma credit_labels (rows : list row) (channel : str) (points : Z) :
  map labels (credit rows channel points) = map labels rows.
Proof.
  induction rows as [|r rows IH]; simpl; [reflexivity|].
  destruct (PyStr.eqb (channel_col r) channel); simpl; [reflexivity|].
  now rewrite IH.
Qed.

Lemma branches_of_spec (rows : list row) :
  forall seen,
    NoDup (branches_of seen rows)
    /\ forall b, In b (branches_of seen rows)
                 <-> ~ In b seen /\ exists r, In r rows /\ branch_col r = b.
Proof.
  induction rows as [|r rows IH]; intros seen; simpl.
  - split; [constructor|]. intros b. split; [tauto|]. intros (_ & r & [] & _).
  - destruct (ReportProcessor.set_mem (branch_col r) seen) eqn:E.
    + destruct (IH seen) as [ND Hin]. split; [exact ND|].
      intros b. rewrite Hin. apply set_mem_In in E. split.
      * intros (Hn & r' & Hr' & Hb). split; [exact Hn|]. exists r'. auto.
      * intros (Hn & r' & [<-|Hr'] & Hb); [congruence|].
        split; [exact Hn|]. now exists r'.
    + destruct (IH (branch_col r :: seen)) as [ND Hin].
      assert (Hnot : ~ In (branch_col r) seen).
      { intros H. apply set_mem_In in H. congruence. }
      split.
      * constructor; [|exact ND]. rewrite Hin. simpl. tauto.
      * intros b. simpl. rewrite Hin. simpl. split.
        -- intros [<-|(Hn & r' & Hr' & Hb)].
           ++ split; [exact Hnot|]. exists r. auto.
           ++ split; [tauto|]. exists r'. auto.
        -- intros (Hn & r' & [<-|Hr'] & Hb); [now left|].
           destruct (list_eq_dec Z.eq_dec (branch_col r) b) as [->|N];
             [now left|].
           right. split; [tauto|]. now exists r'.
Qed.

(** The blocks of the channel report: for each branch, in the order the
    branches are first met, its rows and its 小计 row. *)
Definition channel_blocks (rows : list row) : list (list row * row) :=
  map (fun b => (group_of rows b, subtotal_row b (group_of rows b)))
      (branches_of [] rows).

Lemma blocks_layout (rows : list row) :
  flat_map (fun branch => group_of rows branch
                            ++ [subtotal_row branch (group_of rows branch)])
           (branches_of [] rows)
  ++ [grand_total rows]
  = layout (channel_blocks rows) (grand_total rows).
Proof.
  unfold layout, channel_blocks. f_equal.
  induction (branches_of [] rows) as [|b bs IH]; [reflexivity|].
  cbn [map flat_map fst snd]. now rewrite IH.
Qed.

Lemma final_rows_layout (rows out : list row) (abnormal ab : list str) :
  final_rows rows abnormal = Report out ab ->
  out = layout (channel_blocks rows) (grand_total rows)
  /\ ab = abnormal /\ rows <> [] /\ forallb row_fits rows = true.
Proof.
  unfold final_rows.
  destruct rows as [|r rows]; [discriminate|].
  rewrite (blocks_layout (r :: rows)).
  destruct (forallb row_fits (r :: rows)) eqn:F; [|discriminate].
  intros H. injection H as <- <-.
  split; [reflexivity|]. split; [reflexivity|]. split; [discriminate|].
  reflexivity.
Qed.

(** A frame with a row and numbers that fit gives a report. *)
Lemma final_rows_report (rows : list row) (abnormal : list str) :
  rows <> [] -> forallb row_fits rows = true ->
  final_rows rows abnormal
  = Report (layout (channel_blocks rows) (grand_total rows)) abnormal.
Proof.
  intros Hne F. unfold final_rows.
  destruct rows as [|r rows]; [contradiction|].
  rewrite F, (blocks_layout (r :: rows)). reflexivity.
Qed.

Lemma channel_blocks_rows (rows : list row) :
  Permutation (flat_map fst (channel_blocks rows)) rows.
Proof.
  unfold channel_blocks. rewrite flat_map_concat_map, map_map. simpl.
  rewrite <- flat_map_concat_map.
  destruct (branches_of_spec rows []) as [ND Hin].
  apply (groups_perm branch_col); [exact ND|].
  intros r Hr. apply Hin. split; [tauto|]. now exists r.
Qed.

(** Branch names that come in runs: a name that was left does not come
    back. *)
Inductive contiguous : list str -> Prop :=
| contiguous_nil : contiguous []
| contiguous_cons (b : str) (l : list str) :
    contiguous l -> (In b l -> hd_error l = Some b) -> contiguous (b :: l).

Lemma group_of_other (rows : list row) (b : str) :
  ~ In b (map branch_col rows) -> group_of rows b = [].
Proof.
  intros H. apply filter_none. intros r Hr.
  apply str_eqb_neq. intros E. apply H. rewrite <- E. now apply in_map.
Qed.

Lemma flat_map_group_cons (r : row) (rows : list row) (bs : list str) :
  ~ In (branch_col r) bs ->
  flat_map (fun b => group_of (r :: rows) b) bs = flat_map (group_of rows) bs.
Proof.
  induction bs as [|b bs IH]; intros H; [reflexivity|].
  cbn [flat_map]. rewrite IH by (intros Hin; apply H; now right).
  f_equal. unfold group_of. cbn [filter].
  destruct (PyStr.eqb (branch_col r) b) eqn:E; [|reflexivity].
  apply str_eqb_eq in E. exfalso. apply H. now left.
Qed.

Lemma regroup_run (rows : list row) :
  forall b seen,
    contiguous (b :: map branch_col rows) ->
    (forall r, In r rows -> ~ In (branch_col r) seen) ->
    group_of rows b ++ flat_map (group_of rows) (branches_of (b :: seen) rows)
    = rows.
Proof.
  induction rows as [|r rows IH]; intros b seen C Hseen; [reflexivity|].
  inversion C as [|? ? C' Hhd]; subst. simpl in Hhd.
  destruct (branches_of_spec rows (b :: seen)) as [_ Hb1].
  cbn [branches_of group_of filter].
  destruct (PyStr.eqb (branch_col r) b) eqn:E.
  - apply str_eqb_eq in E.
    assert (M : ReportProcessor.set_mem (branch_col r) (b :: seen) = true).
    { apply set_mem_In. now left. }
    rewrite M. rewrite flat_map_group_cons.
    + cbn [app]. f_equal. apply IH; [now rewrite <- E|].
      intros r' Hr'. apply Hseen. now right.
    + rewrite Hb1. rewrite E. simpl. tauto.
  - apply str_eqb_neq in E.
    assert (Hnb : ~ In b (map branch_col rows)).
    { intros Hin. assert (H : Some (branch_col r) = Some b)
        by (apply Hhd; now right).
      injection H as H. contradiction. }
    assert (M : ReportProcessor.set_mem (branch_col r) (b :: seen) = false).
    { destruct (ReportProcessor.set_mem (branch_col r) (b :: seen)) eqn:M;
        [|reflexivity].
      apply set_mem_In in M as [M|M]; [congruence|].
      exfalso. apply (Hseen r); [now left | exact M]. }
    rewrite M. fold (group_of rows b). rewrite (group_of_other rows b Hnb).
    cbn [app flat_map group_of filter]. rewrite str_eqb_refl.
    fold (group_of rows (branch_col r)).
    destruct (branches_of_spec rows (branch_col r :: b :: seen)) as [_ Hb2].
    rewrite flat_map_group_cons by (rewrite Hb2; simpl; tauto).
    cbn [app]. f_equal. apply IH; [exact C'|].
    intros r' Hr' [E'|Hin].
    + apply Hnb. rewrite E'. now apply in_map.
    + apply (Hseen r'); [now right | exact Hin].
Qed.

(** Rows whose branches come in runs are found again, in their order,
    when the groups are put one after the other. *)
Lemma regroup (rows : list row) :
  contiguous (map branch_col rows) ->
  flat_map fst (channel_blocks rows) = rows.
Proof.
  intros C. unfold channel_blocks. rewrite flat_map_concat_map, map_map.
  simpl. rewrite <- flat_map_concat_map.
  destruct rows as [|r rows]; [reflexivity|].
  cbn [branches_of ReportProcessor.set_mem existsb flat_map].
  destruct (branches_of_spec rows [branch_col r]) as [_ Hb].
  rewrite flat_map_group_cons by (rewrite Hb; simpl; tauto).
  unfold group_of at 1. cbn [filter]. rewrite str_eqb_refl.
  fold (group_of rows (branch_col r)).
  cbn [app]. f_equal. apply regroup_run; [exact C | intros r' _ []].
Qed.

Lemma contiguous_run (b : str) (n : nat) (l : list str) :
  contiguous l -> ~ In b l -> contiguous (repeat b n ++ l).
Proof.
  intros C Hn. induction n as [|n IH]; [exact C|].
  simpl. constructor; [exact IH|]. intros Hin.
  destruct n as [|n']; simpl in *; [contradiction | reflexivity].
Qed.

Lemma seed_rows_branches (channels : branch_channel_map) :
  map branch_col (seed_rows channels)
  = flat_map (fun item => repeat (fst item) (length (snd item))) channels.
Proof.
  unfold seed_rows. induction channels as [|[b cs] channels IH]; [reflexivity|].
  cbn [flat_map fst snd]. rewrite map_app, IH. f_equal.
  induction cs as [|c cs IHc]; simpl; [reflexivity | now rewrite IHc].
Qed.

(** The rows seeded from a map with distinct branch names come in runs. *)
Lemma seed_rows_contiguous (channels : branch_channel_map) :
  NoDup (PyDict.keys channels) ->
  contiguous (map branch_col (seed_rows channels)).
Proof.
  rewrite seed_rows_branches.
  induction channels as [|[b cs] channels IH]; intros ND; [constructor|].
  inversion ND as [|? ? Hn ND']; subst.
  cbn [flat_map fst snd]. apply contiguous_run; [now apply IH|].
  intros Hin. apply Hn. apply in_flat_map in Hin as ([b' cs'] & Hitem & Hrep).
  apply repeat_spec in Hrep. simpl in Hrep. subst b'.
  change b with (fst (b, cs')). now apply in_map.
Qed.

Section Run.
Variable lower : str -> str.
Variable channel_config : branch_channel_map.
Variable points_regex : option regex.
Variable business_config : ReportProcessor.business_categories.
Variable manager_map : roster.
Variable manager_keywords : list str.

Let entry_step :=
  process_entry lower channel_config points_regex business_config manager_map
    manager_keywords.

Lemma process_entry_labels (st : result loop_state) (entry : str)
    (rows : list row) (abnormal : list str) :
  entry_step st entry = Return (rows, abnormal) ->
  exists rows0 abnormal0,
    st = Return (rows0, abnormal0) /\ map labels rows = map labels rows0.
Proof.
  unfold entry_step, process_entry.
  destruct st as [[rows0 abnormal0]|]; [|discriminate].
  destruct (negb (truthy (strip entry))).
  { intros H; injection H as <- <-. now exists rows0, abnormal0. }
  destruct (find_best_match _ _ _ _ _ _) as [ch|].
  - destruct (truthy ch).
    + destruct (extract_points_optimized _ _) as [[p|]|]; [| |discriminate];
        intros H; injection H as <- <-; exists rows0, abnormal0;
        (split; [reflexivity|]); [apply credit_labels | reflexivity].
    + intros H; injection H as <- <-. now exists rows0, abnormal0.
  - intros H; injection H as <- <-. now exists rows0, abnormal0.
Qed.

Lemma entries_labels (entries : list str) :
  forall st rows abnormal,
    fold_left entry_step entries st = Return (rows, abnormal) ->
    exists rows0 abnormal0,
      st = Return (rows0, abnormal0) /\ map labels rows = map labels rows0.
Proof.
  induction entries as [|e entries IH]; intros st rows abnormal H; simpl in H.
  - subst st. now exists rows, abnormal.
  - apply IH in H as (rows1 & abnormal1 & H1 & L1).
    apply process_entry_labels in H1 as (rows0 & abnormal0 & -> & L0).
    exists rows0, abnormal0. split; [reflexivity | congruence].
Qed.

(** A run that gives a report lays out the rows the loop ends with; they
    carry the labels of the seeded rows, in the same order. *)
Lemma run_layout (dragon_text : str) (out : list row) (abnormal : list str) :
  run lower channel_config points_regex business_config manager_map
      manager_keywords dragon_text = Report out abnormal ->
  exists report_data,
    map labels report_data = map labels (seed_rows channel_config)
    /\ out = layout (channel_blocks report_data) (grand_total report_data)
    /\ (dragon_text = [] -> report_data = seed_rows channel_config).
Proof.
  unfold run. fold entry_step.
  destruct (fold_left entry_step _ _) as [[report_data ab]|] eqn:E; [|discriminate].
  intros H. apply final_rows_layout in H as (-> & _ & _ & _).
  exists report_data.
  assert (Hempty : dragon_text = [] -> report_data = seed_rows channel_config).
  { intros ->.
    assert (E' : Return (seed_rows channel_config, @nil str)
                 = Return (report_data, ab)) by exact E.
    now injection E' as <- _. }
  apply entries_labels in E as (rows0 & ab0 & E0 & L).
  injection E0 as <- <-.
  split; [exact L|]. split; [reflexivity | exact Hempty].
Qed.

(** With an empty text the frame is made of the seeded rows. *)
Lemma run_empty :
  run lower channel_config points_regex business_config manager_map
      manager_keywords []
  = final_rows (seed_rows channel_config) [].
Proof. reflexivity. Qed.

End Run.

End ChannelFacts.

(** ** Rows, keys and blocks of the counters *)

(** [str.lower] on a text with no cased character outside ASCII. *)
Definition ascii_lower (s : str) : str :=
  map (fun c => if (65 <=? c) && (c <=? 90) then c + 32 else c) s.

(** The point pattern [generate_new_business_report] falls back on when the
    channel configuration gives none: [积分\s*(\d+)]. *)
Definition default_points_regex : regex :=
  cat [lit "积分"; spaces; Grp 1 digits1].

Lemma values_In {K V : Type} (d : PyDict.dict (K := K) (V := V)) (v : V) :
  In v (PyDict.values d) <-> exists k, In (k, v) d.
Proof.
  unfold PyDict.values. rewrite in_map_iff. split.
  - intros ([k v'] & E & Hin). simpl in E. subst v'. now exists k.
  - intros (k & Hin). now exists (k, v).
Qed.

Lemma keys_In {K V : Type} (d : PyDict.dict (K := K) (V := V)) (k : K) :
  In k (PyDict.keys d) <-> exists v, In (k, v) d.
Proof.
  unfold PyDict.keys. rewrite in_map_iff. split.
  - intros ([k' v] & E & Hin). simpl in E. subst k'. now exists v.
  - intros (v & Hin). now exists (k, v).
Qed.

Lemma zero_rows_totals (rows : list row) (b : str) :
  (forall r, In r rows -> exists b' m', r = zero_row b' m') ->
  subtotal_row b rows = zero_row b (utf8 "小计")
  /\ total_row rows = zero_row (utf8 "总计") [].
Proof.
  intros Hz.
  assert (Hs : forall f : row -> Z, (forall b' m', f (zero_row b' m') = 0) ->
                 sum_of f rows = 0).
  { intros f Hf. unfold sum_of. apply sum_zero.
    intros r Hr. destruct (Hz r Hr) as (b' & m' & ->). apply Hf. }
  unfold subtotal_row, total_row, zero_row, make_row.
  rewrite !Hs by reflexivity. split; reflexivity.
Qed.

Section ManagerRows.
Variable branch_managers : roster.
Variable d : PyDict.dict (K := key) (V := row).
Hypothesis K : roster_keyed branch_managers d.

Lemma data_row_roster (r : row) :
  In r (PyDict.values d) ->
  in_roster branch_managers (branch_col r) (manager_col r).
Proof.
  intros Hr. apply values_In in Hr as ([b m] & Hin).
  destruct K as [[_ L] Kr].
  destruct (L _ _ Hin) as [-> ->]. simpl.
  apply Kr. apply keys_In. now exists r.
Qed.

Lemma roster_pair_row (b m : str) :
  in_roster branch_managers b m ->
  exists r, In r (PyDict.values d) /\ branch_col r = b /\ manager_col r = m.
Proof.
  intros Hm. destruct K as [[_ L] Kr].
  apply Kr, keys_In in Hm as (r & Hin). exists r. split.
  - apply values_In. now exists (b, m).
  - now destruct (L _ _ Hin).
Qed.

Lemma roster_branch_row (b : str) :
  (exists m, in_roster branch_managers b m)
  <-> exists r, In r (PyDict.values d) /\ branch_col r = b.
Proof.
  split.
  - intros (m & Hm). apply roster_pair_row in Hm as (r & Hr & Hb & _).
    now exists r.
  - intros (r & Hr & <-). exists (manager_col r). now apply data_row_roster.
Qed.

Lemma block_branches :
  let bs := PySort.sorted (fun b => b) (PyDict.keys (fst (group_rows d))) in
  NoDup bs
  /\ (forall b, In b bs <-> exists m, in_roster branch_managers b m)
  /\ map (fun bl => branch_col (snd bl)) (manager_blocks d) = bs.
Proof.
  intros bs.
  pose proof (well_keyed_branch _ (proj1 K)) as Hk.
  destruct (group_rows_spec d Hk) as (_ & ND & _ & Hkeys).
  assert (P : Permutation bs (PyDict.keys (fst (group_rows d))))
    by apply sorted_perm.
  split; [eapply Permutation_NoDup; [symmetry; exact P | exact ND]|].
  split.
  - intros b. rewrite roster_branch_row. rewrite <- Hkeys.
    split; intros H; [apply (Permutation_in _ P H)
                     | apply (Permutation_in _ (Permutation_sym P) H)].
  - unfold manager_blocks. rewrite map_map. simpl. apply map_id.
Qed.

Lemma block_In (bl : list row * row) :
  In bl (manager_blocks d) ->
  exists b,
    (exists m, in_roster branch_managers b m)
    /\ bl = (PySort.sorted manager_col (with_label branch_col b (PyDict.values d)),
             subtotal_row b (with_label branch_col b (PyDict.values d))).
Proof.
  unfold manager_blocks. rewrite in_map_iff. intros (b & <- & Hb).
  exists b. split; [|reflexivity].
  now apply (proj1 (proj2 block_branches)).
Qed.

Lemma block_row (b : str) (r : row) :
  In r (PySort.sorted manager_col (with_label branch_col b (PyDict.values d)))
  <-> In r (PyDict.values d) /\ branch_col r = b.
Proof.
  split.
  - intros H. apply (Permutation_in _ (sorted_perm manager_col _)) in H.
    apply filter_In in H as [Hin E]. apply str_eqb_eq in E. auto.
  - intros [Hin E].
    apply (Permutation_in _ (Permutation_sym (sorted_perm manager_col _))).
    apply filter_In. split; [exact Hin | now apply str_eqb_eq].
Qed.

(** Every pair of the roster has its row in the block of its branch. *)
Lemma roster_pair_block (b m : str) :
  in_roster branch_managers b m ->
  exists bl,
    In bl (manager_blocks d) /\ branch_col (snd bl) = b
    /\ exists r, In r (fst bl) /\ manager_col r = m.
Proof.
  intros Hm.
  assert (Hb : In b (PySort.sorted (fun b => b) (PyDict.keys (fst (group_rows d)))))
    by (apply (proj1 (proj2 block_branches)); now exists m).
  apply roster_pair_row in Hm as (r & Hr & Hrb & Hrm).
  exists (PySort.sorted manager_col (with_label branch_col b (PyDict.values d)),
          subtotal_row b (with_label branch_col b (PyDict.values d))).
  split; [|split; [reflexivity|]].
  - unfold manager_blocks. apply in_map_iff. exists b. auto.
  - exists r. split; [|exact Hrm]. cbn [fst]. apply block_row. auto.
Qed.

(** The rows of the blocks are rows of pairs of the roster. *)
Lemma block_row_roster (bl : list row * row) (r : row) :
  In bl (manager_blocks d) -> In r (fst bl) ->
  in_roster branch_managers (branch_col r) (manager_col r).
Proof.
  intros Hbl Hr. apply block_In in Hbl as (b & _ & ->). cbn [fst] in Hr.
  apply block_row in Hr as [Hr _]. now apply data_row_roster.
Qed.

End ManagerRows.

Lemma sum_by_groups {R : Type} (label : R -> str) (f : R -> Z)
    (bs : list str) (rows : list R) :
  NoDup bs -> (forall r, In r rows -> In (label r) bs) ->
  fold_left Z.add (map f rows) 0
  = fold_left Z.add
      (map (fun b => fold_left Z.add (map f (with_label label b rows)) 0) bs) 0.
Proof.
  intros ND Hcov. rewrite <- sum_flat_map.
  apply fold_add_perm, Permutation_map, Permutation_sym.
  now apply groups_perm.
Qed.

(** ** Sums kept in 64 bits *)

(** The exact sum of a column. *)
Definition total {R : Type} (f : R -> Z) (rows : list R) : Z :=
  fold_left Z.add (map f rows) 0.

Lemma wrap_int64_fits (z : Z) :
  ChannelReport.int64_fits z = true -> ChannelReport.wrap_int64 z = z.
Proof.
  unfold ChannelReport.int64_fits, ChannelReport.wrap_int64, ChannelReport.int64_half.
  intros H. apply andb_true_iff in H as [H1 H2].
  apply Z.leb_le in H1. apply Z.ltb_lt in H2.
  rewrite Z.mod_small; lia.
Qed.

Lemma wrap_int64_range (z : Z) :
  ChannelReport.int64_fits (ChannelReport.wrap_int64 z) = true.
Proof.
  unfold ChannelReport.int64_fits, ChannelReport.wrap_int64, ChannelReport.int64_half.
  pose proof (Z.mod_pos_bound (z + 9223372036854775808)
                (2 * 9223372036854775808) ltac:(lia)) as B.
  apply andb_true_iff. split; [apply Z.leb_le | apply Z.ltb_lt]; lia.
Qed.

Lemma wrap_int64_add (a b : Z) :
  ChannelReport.wrap_int64 (a + ChannelReport.wrap_int64 b)
  = ChannelReport.wrap_int64 (a + b).
Proof.
  unfold ChannelReport.wrap_int64, ChannelReport.int64_half. f_equal.
  replace (a + ((b + 9223372036854775808) mod (2 * 9223372036854775808)
                - 9223372036854775808) + 9223372036854775808)
    with (a + (b + 9223372036854775808) mod (2 * 9223372036854775808)) by lia.
  rewrite Zplus_mod_idemp_r. f_equal. lia.
Qed.

(** Wrapping the terms of a sum does not change the wrapped sum. *)
Lemma wrap_int64_sum (l : list Z) :
  ChannelReport.wrap_int64 (fold_left Z.add (map ChannelReport.wrap_int64 l) 0)
  = ChannelReport.wrap_int64 (fold_left Z.add l 0).
Proof.
  induction l as [|x l IH]; [reflexivity|].
  cbn [map fold_left].
  rewrite (fold_add_shift (map ChannelReport.wrap_int64 l)), (fold_add_shift l).
  set (s' := fold_left Z.add (map ChannelReport.wrap_int64 l) 0) in *.
  set (s := fold_left Z.add l 0) in *.
  replace (0 + ChannelReport.wrap_int64 x + s')
    with (s' + ChannelReport.wrap_int64 x) by lia.
  rewrite wrap_int64_add.
  replace (s' + x) with (x + s') by lia.
  rewrite <- wrap_int64_add, IH, wrap_int64_add. f_equal; lia.
Qed.

Lemma channel_sum_total (f : ChannelReport.row -> Z) (rows : list ChannelReport.row) :
  ChannelReport.sum_of f rows = ChannelReport.wrap_int64 (total f rows).
Proof. reflexivity. Qed.

Lemma seed_rows_zero (channels : ChannelReport.branch_channel_map)
    (r : ChannelReport.row) :
  In r (ChannelReport.seed_rows channels) ->
  ChannelReport.count_col r = 0 /\ ChannelReport.points_col r = 0.
Proof.
  unfold ChannelReport.seed_rows. rewrite in_flat_map.
  intros (item & _ & H). apply in_map_iff in H as (ch & <- & _). auto.
Qed.

Lemma seed_rows_fit (channels : ChannelReport.branch_channel_map) :
  forallb ChannelReport.row_fits (ChannelReport.seed_rows channels) = true.
Proof.
  apply forallb_forall. intros r Hr.
  destruct (seed_rows_zero channels r Hr) as [Hc Hp].
  unfold ChannelReport.row_fits. rewrite Hc, Hp. reflexivity.
Qed.

Lemma channel_zero_sum (f : ChannelReport.row -> Z) (rows : list ChannelReport.row) :
  (forall r, In r rows -> f r = 0) -> ChannelReport.sum_of f rows = 0.
Proof.
  intros H. unfold ChannelReport.sum_of. now rewrite sum_zero.
Qed.

(** ** C5, C6 and C7: the rows of the two reports *)

(** A channel map of two branches, the later name first, each with one
    channel. *)
Definition two_branch_channels : ChannelReport.branch_channel_map :=
  [ (utf8 "B支局",
     [ {| ChannelReport.name := utf8 "乙店";
          ChannelReport.channel_keywords := [utf8 "乙店"] |} ]);
    (utf8 "A支局",
     [ {| ChannelReport.name := utf8 "甲店";
          ChannelReport.channel_keywords := [utf8 "甲店"] |} ]) ].

(** A channel map that lists the channel 甲店 twice under its branch. *)
Definition twice_listed_channel : ChannelReport.branch_channel_map :=
  [ (utf8 "A支局",
     [ {| ChannelReport.name := utf8 "甲店";
          ChannelReport.channel_keywords := [utf8 "甲店"] |};
       {| ChannelReport.name := utf8 "甲店";
          ChannelReport.channel_keywords := [utf8 "甲"] |} ]) ].

(** C5, counterexample, on empty texts. A roster whose only branch lists
    no manager gives a manager report made of the 总计 row alone: the
    branch has no 小计 row. A channel map that lists a channel twice gives
    a channel report with two data rows for that pair. A channel map whose
    only branch lists no channel gives no channel report at all: the frame
    has no column to group by. *)
Lemma seeded_rows_not_as_claimed :
  option_map fst (run keep_text [ (utf8 "A支局", []) ] lock_config [] [])
  = Some [ zero_row (utf8 "总计") [] ]
  /\ ChannelReport.run ascii_lower twice_listed_channel
       (Some default_points_regex) [] [] [] []
     = ChannelReport.Report
         [ ChannelReport.Build_row (utf8 "A支局") (utf8 "甲店") 0 0;
           ChannelReport.Build_row (utf8 "A支局") (utf8 "甲店") 0 0;
           ChannelReport.Build_row (utf8 "A支局") (utf8 "小计") 0 0;
           ChannelReport.Build_row (utf8 "总计") [] 0 0 ] []
  /\ ChannelReport.run ascii_lower [ (utf8 "A支局", []) ]
       (Some default_points_regex) [] [] [] []
     = ChannelReport.Failure.
Proof.
  split; [vm_compute; reflexivity|].
  split; vm_compute; reflexivity.
Qed.

(** A row of the channel report with its two numbers at zero. *)
Definition channel_zero (r : ChannelReport.row) : Prop :=
  ChannelReport.count_col r = 0 /\ ChannelReport.points_col r = 0.

(** C5, amended. In the manager report of a run that goes to its end,
    every pair of the roster is one data row and every data row is a pair
    of the roster, whatever the text; every branch that lists a manager has
    one 小计 row, and a 小计 row is the row of such a branch; with an empty
    text the run goes to its end, and the data rows, the 小计 rows and the
    总计 row have all their counters and their total at zero. In the channel
    report, when the run gives one, the data rows are the rows seeded from
    the channel map, one for each channel listed: a pair is one data row
    when the map lists it once; every branch that lists a channel has one
    小计 row, and a 小计 row is the row of such a branch; with an empty text
    and a map that lists a channel the run gives a report, and the data
    rows, the 小计 rows and the 总计 row have their two numbers at zero. *)
Theorem roster_pairs_in_report (lazy_pinyin : str -> list str)
    (branch_managers : roster) (business_config : business_categories)
    (dragon_text : str) (order : list str)
    (lower : str -> str) (channel_config : ChannelReport.branch_channel_map)
    (points_regex : option regex) (manager_keywords : list str)
    (channel_text : str) :
  (forall report exc,
     run lazy_pinyin branch_managers business_config dragon_text order
     = Some (report, exc) ->
     exists blocks grand,
       report = layout blocks grand
       /\ (forall b m, in_roster branch_managers b m ->
             length (filter (fun r => key_eqb (labels r) (b, m))
                            (flat_map fst blocks)) = 1%nat)
       /\ (forall r, In r (flat_map fst blocks) ->
             in_roster branch_managers (branch_col r) (manager_col r))
       /\ (forall b, (exists m, in_roster branch_managers b m) ->
             length (filter (fun bl => PyStr.eqb (branch_col (snd bl)) b) blocks)
             = 1%nat)
       /\ (forall bl, In bl blocks ->
             manager_col (snd bl) = utf8 "小计"
             /\ exists m, in_roster branch_managers (branch_col (snd bl)) m)
       /\ (dragon_text = [] ->
             (forall bl, In bl blocks ->
                (forall r, In r (fst bl) ->
                   r = zero_row (branch_col r) (manager_col r))
                /\ snd bl = zero_row (branch_col (snd bl)) (utf8 "小计"))
             /\ grand = zero_row (utf8 "总计") []))
  /\ (exists report exc,
        run lazy_pinyin branch_managers business_config [] order
        = Some (report, exc))
  /\ (forall out abnormal,
        ChannelReport.run lower channel_config points_regex business_config
          branch_managers manager_keywords channel_text
        = ChannelReport.Report out abnormal ->
        exists blocks grand,
          out = layout blocks grand
          /\ Permutation (map ChannelFacts.labels (flat_map fst blocks))
               (map ChannelFacts.labels (ChannelReport.seed_rows channel_config))
          /\ (NoDup (map ChannelFacts.labels
                       (ChannelReport.seed_rows channel_config)) ->
              forall r0, In r0 (ChannelReport.seed_rows channel_config) ->
                length (filter (fun r => key_eqb (ChannelFacts.labels r)
                                                 (ChannelFacts.labels r0))
                               (flat_map fst blocks)) = 1%nat)
          /\ (forall r0, In r0 (ChannelReport.seed_rows channel_config) ->
                length (filter (fun bl =>
                                  PyStr.eqb (ChannelReport.branch_col (snd bl))
                                            (ChannelReport.branch_col r0)) blocks)
                = 1%nat)
          /\ (forall bl, In bl blocks ->
                ChannelReport.channel_col (snd bl) = utf8 "小计"
                /\ exists r0, In r0 (ChannelReport.seed_rows channel_config)
                              /\ ChannelReport.branch_col r0
                                 = ChannelReport.branch_col (snd bl))
          /\ (channel_text = [] ->
                (forall bl, In bl blocks ->
                   (forall r, In r (fst bl) -> channel_zero r)
                   /\ channel_zero (snd bl))
                /\ channel_zero grand))
  /\ (ChannelReport.seed_rows channel_config <> [] ->
      exists out,
        ChannelReport.run lower channel_config points_regex business_config
          branch_managers manager_keywords []
        = ChannelReport.Report out []).
Proof.
  split; [|split; [|split]].
  - intros report exc Hrun.
    apply final_layout in Hrun as (d & Hd & K & ->).
    pose proof (proj1 K) as W.
    destruct (block_branches branch_managers d K) as (ND & Hbs & Hmap).
    exists (manager_blocks d), (total_row (PyDict.values d)).
    split; [reflexivity|].
    split.
    { intros b m Hin. apply pair_once; [exact W|]. now apply (proj2 K). }
    split.
    { intros r Hr.
      apply (Permutation_in _ (manager_blocks_rows d (well_keyed_branch d W))) in Hr.
      now apply (data_row_roster branch_managers d K). }
    split.
    { intros b Hb.
      rewrite <- (nodup_filter_one PyStr.eqb str_eqb_eq _ b ND (proj2 (Hbs b) Hb)).
      rewrite <- Hmap, filter_map_length. reflexivity. }
    split.
    { intros bl Hbl.
      apply (block_In branch_managers d K) in Hbl as (b & Hb & ->).
      split; [reflexivity | exact Hb]. }
    intros ->. rewrite empty_text_data in Hd. injection Hd as <-.
    assert (Hzero : forall r,
              In r (PyDict.values (_init_manager_data branch_managers)) ->
              r = zero_row (branch_col r) (manager_col r)).
    { intros r Hr. apply values_In in Hr as (k & Hin).
      rewrite (init_rows_zero _ _ _ Hin). reflexivity. }
    split.
    + intros bl Hbl. unfold manager_blocks in Hbl.
      apply in_map_iff in Hbl as (b & <- & _). simpl. split.
      * intros r Hr.
        apply (Permutation_in _ (sorted_perm manager_col _)) in Hr.
        apply filter_In in Hr as [Hr _]. now apply Hzero.
      * apply zero_rows_totals. intros r Hr.
        apply filter_In in Hr as [Hr _]. eexists _, _. now apply Hzero.
    + apply (zero_rows_totals _ []). intros r Hr. eexists _, _. now apply Hzero.
  - destruct (run_returns lazy_pinyin branch_managers business_config [] order _
                (empty_text_data lazy_pinyin branch_managers business_config))
      as [exc H].
    eexists _, exc. exact H.
  - intros out abnormal Hrun.
    apply ChannelFacts.run_layout in Hrun as (report_data & Hl & -> & Hempty).
    assert (Hbr : map ChannelReport.branch_col report_data
                  = map ChannelReport.branch_col
                      (ChannelReport.seed_rows channel_config)).
    { change ChannelReport.branch_col with (fun r => fst (ChannelFacts.labels r)).
      rewrite <- !(map_map ChannelFacts.labels fst). now rewrite Hl. }
    destruct (ChannelFacts.branches_of_spec report_data []) as [ND Hin].
    assert (Hmap : map (fun bl => ChannelReport.branch_col (snd bl))
                       (ChannelFacts.channel_blocks report_data)
                   = ChannelReport.branches_of [] report_data).
    { unfold ChannelFacts.channel_blocks. rewrite map_map. simpl. apply map_id. }
    assert (Hseed : forall b,
              In b (ChannelReport.branches_of [] report_data)
              <-> exists r0, In r0 (ChannelReport.seed_rows channel_config)
                             /\ ChannelReport.branch_col r0 = b).
    { intros b. rewrite Hin. split.
      - intros (_ & r & Hr & Hb).
        assert (H : In b (map ChannelReport.branch_col
                            (ChannelReport.seed_rows channel_config))).
        { rewrite <- Hbr. apply in_map_iff. now exists r. }
        apply in_map_iff in H as (r0 & Hb0 & Hr0). now exists r0.
      - intros (r0 & Hr0 & Hb0). split; [tauto|].
        assert (H : In b (map ChannelReport.branch_col report_data)).
        { rewrite Hbr. apply in_map_iff. now exists r0. }
        apply in_map_iff in H as (r & Hb & Hr). now exists r. }
    exists (ChannelFacts.channel_blocks report_data),
           (ChannelReport.grand_total report_data).
    split; [reflexivity|].
    split.
    { rewrite <- Hl. apply Permutation_map, ChannelFacts.channel_blocks_rows. }
    split.
    { intros NDl r0 Hr0.
      rewrite (filter_length_perm _ _ _ (ChannelFacts.channel_blocks_rows report_data)).
      rewrite <- (@filter_map_length ChannelReport.row (str * str)
                    (fun k => key_eqb k (ChannelFacts.labels r0))
                    ChannelFacts.labels report_data).
      rewrite Hl. apply (nodup_filter_one key_eqb key_eqb_eq); [exact NDl|].
      now apply in_map. }
    split.
    { intros r0 Hr0.
      rewrite <- (filter_map_length
                    (fun b => PyStr.eqb b (ChannelReport.branch_col r0))
                    (fun bl => ChannelReport.branch_col (snd bl))).
      rewrite Hmap. apply (nodup_filter_one PyStr.eqb str_eqb_eq); [exact ND|].
      apply Hseed. now exists r0. }
    split.
    { intros bl Hbl.
      assert (Hb : In (ChannelReport.branch_col (snd bl))
                      (ChannelReport.branches_of [] report_data)).
      { rewrite <- Hmap.
        now apply (in_map (fun bl => ChannelReport.branch_col (snd bl))). }
      unfold ChannelFacts.channel_blocks in Hbl.
      apply in_map_iff in Hbl as (b & <- & _). cbn [snd] in *.
      split; [reflexivity|]. now apply Hseed. }
    intros Ht. rewrite (Hempty Ht).
    assert (Hz : forall rows,
              (forall r, In r rows ->
                 In r (ChannelReport.seed_rows channel_config)) ->
              ChannelReport.sum_of ChannelReport.count_col rows = 0
              /\ ChannelReport.sum_of ChannelReport.points_col rows = 0).
    { intros rows Hsub. split; apply channel_zero_sum; intros r Hr;
        now destruct (seed_rows_zero channel_config r (Hsub r Hr)). }
    split.
    + intros bl Hbl. unfold ChannelFacts.channel_blocks in Hbl.
      apply in_map_iff in Hbl as (b & <- & _). cbn [fst snd].
      split.
      * intros r Hr. apply filter_In in Hr as [Hr _].
        now apply (seed_rows_zero channel_config).
      * apply Hz. intros r Hr. now apply filter_In in Hr as [Hr _].
    + apply Hz. auto.
  - intros Hne. rewrite ChannelFacts.run_empty.
    rewrite ChannelFacts.final_rows_report; [|exact Hne | apply seed_rows_fit].
    eexists. reflexivity.
Qed.

(** A text that counts one lock-in for 张三, and a text that credits 乙店
    with 30 points. *)
Definition lock_text : str := utf8 "1. A支局 张三 锁存5户".

Definition points_text : str := utf8 "1. 乙店 张三 积分30".

Definition points_report : list ChannelReport.row :=
  [ ChannelReport.Build_row (utf8 "B支局") (utf8 "乙店") 1 30;
    ChannelReport.Build_row (utf8 "B支局") (utf8 "小计") 1 30;
    ChannelReport.Build_row (utf8 "A支局") (utf8 "甲店") 0 0;
    ChannelReport.Build_row (utf8 "A支局") (utf8 "小计") 0 0;
    ChannelReport.Build_row (utf8 "总计") [] 1 30 ].

Lemma points_text_run :
  ChannelReport.run ascii_lower two_branch_channels (Some default_points_regex)
    lock_config small_roster [] points_text
  = ChannelReport.Report points_report [].
Proof. vm_compute. reflexivity. Qed.

Lemma small_roster_pair : in_roster small_roster (utf8 "A支局") (utf8 "张三").
Proof. exists [utf8 "张三"]. split; left; reflexivity. Qed.

(** C5 on the two texts: the pair of the roster is one data row of the
    manager report, and the pair B支局, 乙店 of the channel map is one data
    row of the channel report. *)
Lemma roster_pairs_in_report_witness :
  (exists report exc blocks grand,
     run keep_text small_roster lock_config lock_text [] = Some (report, exc)
     /\ report = layout blocks grand
     /\ length (filter (fun r => key_eqb (labels r) (utf8 "A支局", utf8 "张三"))
                       (flat_map fst blocks)) = 1%nat)
  /\ (exists blocks grand,
        points_report = layout blocks grand
        /\ length (filter (fun r => key_eqb (ChannelFacts.labels r)
                                            (utf8 "B支局", utf8 "乙店"))
                          (flat_map fst blocks)) = 1%nat).
Proof.
  pose proof (roster_pairs_in_report keep_text small_roster lock_config lock_text []
                ascii_lower two_branch_channels (Some default_points_regex) []
                points_text) as (Hm & _ & Hc & _).
  split.
  - destruct (run keep_text small_roster lock_config lock_text [])
      as [[report exc]|] eqn:E; [|vm_compute in E; discriminate].
    destruct (Hm report exc eq_refl) as (blocks & grand & Hl & Honce & _).
    exists report, exc, blocks, grand.
    split; [reflexivity|]. split; [exact Hl|].
    apply Honce, small_roster_pair.
  - destruct (Hc points_report [] points_text_run)
      as (blocks & grand & Hl & _ & Honce & _).
    exists blocks, grand. split; [exact Hl|].
    apply (Honce ltac:(vm_compute; repeat constructor; simpl; intuition discriminate)
                 (ChannelReport.Build_row (utf8 "B支局") (utf8 "乙店") 0 0)).
    left. reflexivity.
Defined.

(** C6, counterexample: the channel report of a map that lists B支局 before
    A支局. The groups are taken in the order the branches are met
    ([groupby] with [sort=False]), so the block of B支局 comes first although
    A支局 is the smaller name. *)
Lemma channel_report_keeps_map_order :
  ChannelReport.run ascii_lower two_branch_channels
    (Some default_points_regex) [] [] [] []
  = ChannelReport.Report
      [ ChannelReport.Build_row (utf8 "B支局") (utf8 "乙店") 0 0;
        ChannelReport.Build_row (utf8 "B支局") (utf8 "小计") 0 0;
        ChannelReport.Build_row (utf8 "A支局") (utf8 "甲店") 0 0;
        ChannelReport.Build_row (utf8 "A支局") (utf8 "小计") 0 0;
        ChannelReport.Build_row (utf8 "总计") [] 0 0 ] []
  /\ PyStr.ltb (utf8 "A支局") (utf8 "B支局") = true.
Proof. split; vm_compute; reflexivity. Qed.

(** C6, amended. The manager report of a run that goes to its end lists
    its branches in increasing order of name, each with its rows in
    increasing order of manager followed by its 小计 row, and ends with the
    总计 row; every pair of the roster has its row in the block of its
    branch, and the blocks hold no other row. The channel report has the
    same layout, with the rows seeded from the channel map for data rows,
    but its branches and its rows keep the order of the channel map (the
    branches of a map are all different). *)
Theorem report_order (lazy_pinyin : str -> list str)
    (branch_managers : roster) (business_config : business_categories)
    (dragon_text : str) (order : list str)
    (lower : str -> str) (channel_config : ChannelReport.branch_channel_map)
    (points_regex : option regex) (manager_keywords : list str)
    (channel_text : str) :
  (forall report exc,
     run lazy_pinyin branch_managers business_config dragon_text order
     = Some (report, exc) ->
     exists blocks grand,
       report = layout blocks grand
       /\ StronglySorted (fun a b => PyStr.ltb a b = true)
            (map (fun bl => branch_col (snd bl)) blocks)
       /\ (forall bl, In bl blocks ->
             StronglySorted (key_le manager_col) (fst bl)
             /\ (forall r, In r (fst bl) -> branch_col r = branch_col (snd bl))
             /\ manager_col (snd bl) = utf8 "小计")
       /\ branch_col grand = utf8 "总计" /\ manager_col grand = []
       /\ (forall b m, in_roster branch_managers b m ->
             exists bl, In bl blocks /\ branch_col (snd bl) = b
                        /\ exists r, In r (fst bl) /\ manager_col r = m)
       /\ (forall bl r, In bl blocks -> In r (fst bl) ->
             in_roster branch_managers (branch_col r) (manager_col r)))
  /\ (forall out abnormal,
        ChannelReport.run lower channel_config points_regex business_config
          branch_managers manager_keywords channel_text
        = ChannelReport.Report out abnormal ->
        exists blocks grand,
          out = layout blocks grand
          /\ NoDup (map (fun bl => ChannelReport.branch_col (snd bl)) blocks)
          /\ (forall bl, In bl blocks ->
                (forall r, In r (fst bl) ->
                   ChannelReport.branch_col r = ChannelReport.branch_col (snd bl))
                /\ ChannelReport.channel_col (snd bl) = utf8 "小计")
          /\ ChannelReport.branch_col grand = utf8 "总计"
          /\ ChannelReport.channel_col grand = []
          /\ Permutation (map ChannelFacts.labels (flat_map fst blocks))
               (map ChannelFacts.labels (ChannelReport.seed_rows channel_config))
          /\ (NoDup (PyDict.keys channel_config) ->
              map ChannelFacts.labels (flat_map fst blocks)
              = map ChannelFacts.labels (ChannelReport.seed_rows channel_config))).
Proof.
  split.
  - intros report exc Hrun.
    apply final_layout in Hrun as (d & Hd & K & ->).
    pose proof (proj1 K) as W.
    destruct (block_branches branch_managers d K) as (_ & _ & Hmap).
    destruct (group_rows_spec d (well_keyed_branch d W)) as (_ & NDk & _ & _).
    exists (manager_blocks d), (total_row (PyDict.values d)).
    split; [reflexivity|].
    split; [rewrite Hmap; now apply sorted_strict|].
    split.
    { intros bl Hbl.
      apply (block_In branch_managers d K) in Hbl as (b & _ & ->). cbn [fst snd].
      split; [apply sorted_sorted|]. split; [|reflexivity].
      intros r Hr. now apply (block_row d) in Hr. }
    split; [reflexivity|]. split; [reflexivity|].
    split; [apply (roster_pair_block branch_managers d K)|].
    apply (block_row_roster branch_managers d K).
  - intros out abnormal Hrun.
    apply ChannelFacts.run_layout in Hrun as (report_data & Hl & -> & _).
    exists (ChannelFacts.channel_blocks report_data),
           (ChannelReport.grand_total report_data).
    split; [reflexivity|].
    destruct (ChannelFacts.branches_of_spec report_data []) as [ND _].
    split.
    { unfold ChannelFacts.channel_blocks. rewrite map_map. simpl.
      now rewrite map_id. }
    split.
    { intros bl Hbl. unfold ChannelFacts.channel_blocks in Hbl.
      apply in_map_iff in Hbl as (b & <- & _). cbn [fst snd].
      split; [|reflexivity]. intros r Hr.
      apply filter_In in Hr as [_ E]. now apply str_eqb_eq in E. }
    split; [reflexivity|]. split; [reflexivity|].
    split.
    { rewrite <- Hl. apply Permutation_map, ChannelFacts.channel_blocks_rows. }
    intros NDc. rewrite <- Hl. f_equal. apply ChannelFacts.regroup.
    assert (E : map ChannelReport.branch_col report_data
                = map ChannelReport.branch_col (ChannelReport.seed_rows channel_config)).
    { change ChannelReport.branch_col with (fun r => fst (ChannelFacts.labels r)).
      rewrite <- !(map_map ChannelFacts.labels fst). now rewrite Hl. }
    rewrite E. now apply ChannelFacts.seed_rows_contiguous.
Qed.

(** C6 on the two texts: the manager report has the row of 张三 in the
    block of A支局, and the data rows of the channel report are those of
    B支局 and A支局, in the order of the map. *)
Lemma report_order_witness :
  (exists report exc blocks grand,
     run keep_text small_roster lock_config lock_text [] = Some (report, exc)
     /\ report = layout blocks grand
     /\ exists bl, In bl blocks /\ branch_col (snd bl) = utf8 "A支局"
                   /\ exists r, In r (fst bl) /\ manager_col r = utf8 "张三")
  /\ (exists blocks grand,
        points_report = layout blocks grand
        /\ map ChannelFacts.labels (flat_map fst blocks)
           = [ (utf8 "B支局", utf8 "乙店"); (utf8 "A支局", utf8 "甲店") ]).
Proof.
  pose proof (report_order keep_text small_roster lock_config lock_text []
                ascii_lower two_branch_channels (Some default_points_regex) []
                points_text) as (Hm & Hc).
  split.
  - destruct (run keep_text small_roster lock_config lock_text [])
      as [[report exc]|] eqn:E; [|vm_compute in E; discriminate].
    destruct (Hm report exc eq_refl)
      as (blocks & grand & Hl & _ & _ & _ & _ & Hcov & _).
    exists report, exc, blocks, grand.
    split; [reflexivity|]. split; [exact Hl|].
    apply Hcov, small_roster_pair.
  - destruct (Hc points_report [] points_text_run)
      as (blocks & grand & Hl & _ & _ & _ & _ & _ & Hord).
    exists blocks, grand. split; [exact Hl|].
    apply Hord. vm_compute.
    repeat constructor; simpl; intuition discriminate.
Defined.

(** A channel map of one branch with two channels, and a text that credits
    the first with 2^63 - 1 points and the second with 1 point. *)
Definition two_channels : ChannelReport.branch_channel_map :=
  [ (utf8 "A支局",
     [ {| ChannelReport.name := utf8 "甲店";
          ChannelReport.channel_keywords := [utf8 "甲店"] |};
       {| ChannelReport.name := utf8 "乙店";
          ChannelReport.channel_keywords := [utf8 "乙店"] |} ]) ].

Definition large_points_text : str :=
  join_lines [utf8 "1. 甲店 积分9223372036854775807"; utf8 "2. 乙店 积分1"].

(** C7, counterexample: the two scores of the branch fit in 64 bits, their
    sum 2^63 does not. The sums of the frame are kept in 64 bits, so the
    小计 row and the 总计 row hold -2^63 for 积分, which is not the sum of
    the rows. *)
Lemma channel_subtotal_wraps :
  ChannelReport.run ascii_lower two_channels (Some default_points_regex)
    [] [] [] large_points_text
  = ChannelReport.Report
      [ ChannelReport.Build_row (utf8 "A支局") (utf8 "甲店") 1 9223372036854775807;
        ChannelReport.Build_row (utf8 "A支局") (utf8 "乙店") 1 1;
        ChannelReport.Build_row (utf8 "A支局") (utf8 "小计") 2 (-9223372036854775808);
        ChannelReport.Build_row (utf8 "总计") [] 2 (-9223372036854775808) ] []
  /\ 9223372036854775807 + 1 <> -9223372036854775808.
Proof. split; [vm_compute; reflexivity | discriminate]. Qed.

(** C7, amended. In the manager report of a run that goes to its end the
    小计 row of a branch holds, column by column, the sum of the rows of
    the branch, and the 总计 row holds, column by column, the sum of the
    小计 rows; the rows of the blocks are those of the pairs of the roster.
    In the channel report, whose data rows are the rows seeded from the
    map, the two numbers of a 小计 row are the sums of the rows of the
    branch and those of the 总计 row the sums of the 小计 rows, all of them
    kept in 64 bits: they are the exact sums whenever the exact sums fit
    in 64 bits. *)
Theorem subtotals_add_up (lazy_pinyin : str -> list str)
    (branch_managers : roster) (business_config : business_categories)
    (dragon_text : str) (order : list str)
    (lower : str -> str) (channel_config : ChannelReport.branch_channel_map)
    (points_regex : option regex) (manager_keywords : list str)
    (channel_text : str) :
  (forall report exc,
     run lazy_pinyin branch_managers business_config dragon_text order
     = Some (report, exc) ->
     exists blocks grand,
       report = layout blocks grand
       /\ NoDup (map (fun bl => branch_col (snd bl)) blocks)
       /\ (forall bl, In bl blocks ->
             (forall r, In r (fst bl) -> branch_col r = branch_col (snd bl))
             /\ (forall c, count (snd bl) c = total (fun m => count m c) (fst bl))
             /\ total_col (snd bl) = total total_col (fst bl))
       /\ (forall c, count grand c = total (fun s => count s c) (map snd blocks))
       /\ total_col grand = total total_col (map snd blocks)
       /\ (forall b m, in_roster branch_managers b m ->
             exists bl, In bl blocks /\ branch_col (snd bl) = b
                        /\ exists r, In r (fst bl) /\ manager_col r = m)
       /\ (forall bl r, In bl blocks -> In r (fst bl) ->
             in_roster branch_managers (branch_col r) (manager_col r)))
  /\ (forall out abnormal,
        ChannelReport.run lower channel_config points_regex business_config
          branch_managers manager_keywords channel_text
        = ChannelReport.Report out abnormal ->
        exists blocks grand,
          out = layout blocks grand
          /\ NoDup (map (fun bl => ChannelReport.branch_col (snd bl)) blocks)
          /\ Permutation (map ChannelFacts.labels (flat_map fst blocks))
               (map ChannelFacts.labels (ChannelReport.seed_rows channel_config))
          /\ (forall bl, In bl blocks ->
                (forall r, In r (fst bl) ->
                   ChannelReport.branch_col r = ChannelReport.branch_col (snd bl))
                /\ ChannelReport.count_col (snd bl)
                   = ChannelReport.wrap_int64
                       (total ChannelReport.count_col (fst bl))
                /\ ChannelReport.points_col (snd bl)
                   = ChannelReport.wrap_int64
                       (total ChannelReport.points_col (fst bl)))
          /\ ChannelReport.count_col grand
             = ChannelReport.wrap_int64
                 (total ChannelReport.count_col (map snd blocks))
          /\ ChannelReport.points_col grand
             = ChannelReport.wrap_int64
                 (total ChannelReport.points_col (map snd blocks))
          /\ (forall (f : ChannelReport.row -> Z) bl,
                f = ChannelReport.count_col \/ f = ChannelReport.points_col ->
                In bl blocks ->
                ChannelReport.int64_fits (total f (fst bl)) = true ->
                f (snd bl) = total f (fst bl))
          /\ (forall f : ChannelReport.row -> Z,
                f = ChannelReport.count_col \/ f = ChannelReport.points_col ->
                ChannelReport.int64_fits (total f (map snd blocks)) = true ->
                f grand = total f (map snd blocks))).
Proof.
  split.
  - intros report exc Hrun.
    apply final_layout in Hrun as (d & Hd & K & ->).
    pose proof (proj1 K) as W.
    destruct (block_branches branch_managers d K) as (ND & Hbs & Hmap).
    exists (manager_blocks d), (total_row (PyDict.values d)).
    split; [reflexivity|].
    split; [now rewrite Hmap|].
    assert (Hsum : forall (f : row -> Z) b,
              sum_of f (PySort.sorted manager_col
                          (with_label branch_col b (PyDict.values d)))
              = sum_of f (with_label branch_col b (PyDict.values d))).
    { intros f b. unfold sum_of. apply fold_add_perm, Permutation_map, sorted_perm. }
    assert (Hgrand : forall f : row -> Z,
              sum_of f (PyDict.values d)
              = fold_left Z.add
                  (map (fun b => sum_of f (with_label branch_col b (PyDict.values d)))
                       (PySort.sorted (fun b => b)
                          (PyDict.keys (fst (group_rows d))))) 0).
    { intros f. unfold sum_of. apply sum_by_groups; [exact ND|].
      intros r Hr. apply Hbs.
      apply (roster_branch_row branch_managers d K). now exists r. }
    change (@total row) with sum_of.
    split.
    { intros bl Hbl.
      apply (block_In branch_managers d K) in Hbl as (b & _ & ->). cbn [fst snd].
      split.
      - intros r Hr. now apply (block_row d) in Hr.
      - split.
        + intros c. rewrite Hsum. unfold subtotal_row. apply count_make_row.
        + rewrite Hsum. reflexivity. }
    split.
    { intros c. unfold total_row. rewrite count_make_row, Hgrand.
      unfold manager_blocks, sum_of at 2. rewrite !map_map. cbn [snd].
      f_equal. apply map_ext. intros b. unfold subtotal_row.
      now rewrite count_make_row. }
    split.
    { unfold total_row at 1. cbn [total_col make_row]. rewrite Hgrand.
      unfold manager_blocks, sum_of at 2. rewrite !map_map. reflexivity. }
    split; [apply (roster_pair_block branch_managers d K)|].
    apply (block_row_roster branch_managers d K).
  - intros out abnormal Hrun.
    apply ChannelFacts.run_layout in Hrun as (report_data & Hl & -> & _).
    exists (ChannelFacts.channel_blocks report_data),
           (ChannelReport.grand_total report_data).
    split; [reflexivity|].
    destruct (ChannelFacts.branches_of_spec report_data []) as [ND Hin].
    split.
    { unfold ChannelFacts.channel_blocks. rewrite map_map. simpl.
      now rewrite map_id. }
    split.
    { rewrite <- Hl. apply Permutation_map, ChannelFacts.channel_blocks_rows. }
    assert (Hblock : forall bl, In bl (ChannelFacts.channel_blocks report_data) ->
              (forall r, In r (fst bl) ->
                 ChannelReport.branch_col r = ChannelReport.branch_col (snd bl))
              /\ forall f : ChannelReport.row -> Z,
                   f = ChannelReport.count_col \/ f = ChannelReport.points_col ->
                   f (snd bl) = ChannelReport.wrap_int64 (total f (fst bl))).
    { intros bl Hbl. unfold ChannelFacts.channel_blocks in Hbl.
      apply in_map_iff in Hbl as (b & <- & _). cbn [fst snd].
      split.
      - intros r Hr. apply filter_In in Hr as [_ E]. now apply str_eqb_eq in E.
      - intros f [-> | ->]; reflexivity. }
    assert (Hgrand : forall f : ChannelReport.row -> Z,
              f = ChannelReport.count_col \/ f = ChannelReport.points_col ->
              f (ChannelReport.grand_total report_data)
              = ChannelReport.wrap_int64
                  (total f (map snd (ChannelFacts.channel_blocks report_data)))).
    { intros f Hf.
      assert (Hsub : map f (map snd (ChannelFacts.channel_blocks report_data))
                     = map ChannelReport.wrap_int64
                         (map (fun b => total f (ChannelReport.group_of report_data b))
                              (ChannelReport.branches_of [] report_data))).
      { unfold ChannelFacts.channel_blocks. rewrite !map_map. cbn [snd].
        apply map_ext. intros b. destruct Hf as [-> | ->]; reflexivity. }
      assert (Hs : fold_left Z.add (map f report_data) 0
                   = fold_left Z.add
                       (map (fun b => total f (ChannelReport.group_of report_data b))
                            (ChannelReport.branches_of [] report_data)) 0).
      { apply (sum_by_groups ChannelReport.branch_col f _ report_data ND).
        intros r Hr. apply Hin. split; [tauto|]. now exists r. }
      unfold total at 1. rewrite Hsub, wrap_int64_sum, <- Hs.
      destruct Hf as [-> | ->]; reflexivity. }
    split.
    { intros bl Hbl. destruct (Hblock bl Hbl) as [Hb Hf].
      split; [exact Hb|]. split; apply Hf; auto. }
    split; [apply Hgrand; auto|].
    split; [apply Hgrand; auto|].
    split.
    + intros f bl Hf Hbl Hfit. destruct (Hblock bl Hbl) as [_ Hw].
      rewrite (Hw f Hf). now apply wrap_int64_fits.
    + intros f Hf Hfit. rewrite (Hgrand f Hf). now apply wrap_int64_fits.
Qed.

(** C7 on the two texts: in the manager report the 总计 of 锁存 is the sum
    of the 小计 rows and the row of 张三 is in the block of A支局; in the
    channel report the 积分 of the 总计 row is the sum of those of the 小计
    rows, kept in 64 bits. *)
Lemma subtotals_add_up_witness :
  (exists report exc blocks grand,
     run keep_text small_roster lock_config lock_text [] = Some (report, exc)
     /\ report = layout blocks grand
     /\ count grand lock_storage
        = total (fun s => count s lock_storage) (map snd blocks)
     /\ exists bl, In bl blocks /\ branch_col (snd bl) = utf8 "A支局"
                   /\ exists r, In r (fst bl) /\ manager_col r = utf8 "张三")
  /\ (exists blocks grand,
        points_report = layout blocks grand
        /\ ChannelReport.points_col grand
           = ChannelReport.wrap_int64
               (total ChannelReport.points_col (map snd blocks))).
Proof.
  pose proof (subtotals_add_up keep_text small_roster lock_config lock_text []
                ascii_lower two_branch_channels (Some default_points_regex) []
                points_text) as (Hm & Hc).
  split.
  - destruct (run keep_text small_roster lock_config lock_text [])
      as [[report exc]|] eqn:E; [|vm_compute in E; discriminate].
    destruct (Hm report exc eq_refl)
      as (blocks & grand & Hl & _ & _ & Hg & _ & Hcov & _).
    exists report, exc, blocks, grand.
    split; [reflexivity|]. split; [exact Hl|]. split; [apply Hg|].
    apply Hcov, small_roster_pair.
  - destruct (Hc points_report [] points_text_run)
      as (blocks & grand & Hl & _ & _ & _ & _ & Hp & _).
    exists blocks, grand. split; [exact Hl | exact Hp].
Defined.

(** * Further properties of the code *)

(** ** The count of a line: read, or refused for its length *)

















(** ** When a run goes to its end *)



Section Completion.
Variable lazy_pinyin : str -> list str.
Variable branch_managers : roster.
Variable business_config : business_categories.







End Completion.


(** ** Rows that add up, counters that only grow *)









Section Balance.
Variable lazy_pinyin : str -> list str.
Variable branch_managers : roster.
Variable business_config : business_categories.

Let step := process_line lazy_pinyin branch_managers business_config.






End Balance.




(** ** The closing sweep *)

Section Sweep.
Variable lazy_pinyin : str -> list str.
Variable branch_managers : roster.




End Sweep.

(** ** The resolver *)

Section Resolver.
Variable lazy_pinyin : str -> list str.
Variable branch_managers : roster.



End Resolver.


(** ** Title lines *)










(** ** The entries of the channel report *)



Section ChannelEntries.
Variable lower : str -> str.
Variable channel_config : ChannelReport.branch_channel_map.
Variable points_regex : option regex.
Variable business_config : business_categories.
Variable manager_map : roster.
Variable manager_keywords : list str.

Let entry_step :=
  ChannelReport.process_entry lower channel_config points_regex business_config
    manager_map manager_keywords.







End ChannelEntries.



(** ** The generic point pattern comes first *)









Definition found (pos : nat) : nat -> str -> caps -> option match_obj :=
  fun e _ c => Some {| m_start := pos; m_end := e; m_caps := c |}.


















(** ** The keyword a text is matched with *)



